(** * stm32ld: the loader driver (src/main.c)

    A shallow embedding of [main.c]: the progress callback
    [writeh_progress], the data callback [writeh_read_data] and the
    session that [main] drives over the bootloader library.  The library
    itself (stm32ld.h: [stm32_init], [stm32_get_version], ...) is not part
    of the sources; what its calls return is a parameter, the [device]. *)

From Stdlib Require Import ZArith List String Ascii Bool Lia.
From Stdlib Require Import Init.Byte.
Import ListNotations.
Open Scope Z_scope.

(** ** Machine integers *)

(** [u32], [u16], [u8]: the value stored in an unsigned object of that
    width; [s32]: the value of a two's complement [int]. *)
Definition u32 (x : Z) : Z := x mod 2 ^ 32.
Definition u16 (x : Z) : Z := x mod 2 ^ 16.
Definition u8 (x : Z) : Z := x mod 2 ^ 8.
Definition s32 (x : Z) : Z := (x + 2 ^ 31) mod 2 ^ 32 - 2 ^ 31.

(** ** The outside world *)

(** Status of a library call.  The driver only ever compares a status
    with [STM32_OK]. *)
Inductive stm32_result : Type :=
| STM32_OK
| STM32_NOT_OK.

Definition is_ok (r : stm32_result) : bool :=
  match r with STM32_OK => true | STM32_NOT_OK => false end.

(** What the bootloader library answers.  [stm32_init] is the only call
    made more than once, and write-memory commands are issued once per
    block: both are indexed by the number of earlier calls. *)
Record device : Type := {
  dev_init : nat -> stm32_result;
  dev_get_version : option (Z * Z);
  dev_get_chip_id : option Z;
  dev_write_unprotect : stm32_result;
  dev_extended_erase : stm32_result;
  dev_erase : stm32_result;
  dev_flash_base : Z;
  dev_write_memory : nat -> stm32_result;
  dev_go : stm32_result
}.

(** [fopen(path, "rb")]: the content of the file, or [None] for NULL. *)
Definition filesystem : Type := string -> option (list byte).

(** An open stream: content, read position, end-of-file indicator. *)
Record FILE : Type := {
  f_data : list byte;
  f_pos : nat;
  f_eof : bool
}.

(** What the process does that can be observed from outside. *)
Inductive event : Type :=
| EvFopen (path : string) (opened : bool)
| EvFclose
| EvInit (port : string) (baud : Z) (r : stm32_result)
| EvRetry (count : Z)
| EvSleep (seconds : Z)
| EvGetVersion (r : option (Z * Z))
| EvGetChipId (r : option Z)
| EvWriteUnprotect (r : stm32_result)
| EvExtendedErase (r : stm32_result)
| EvErase (r : stm32_result)
| EvWriteFlash
| EvWriteMemory (address : Z) (chunk : list byte) (r : stm32_result)
| EvProgress (percent : Z)
| EvGo (r : stm32_result).

(** The lines written to stderr just before [exit(1)]. *)
Inductive message : Type :=
| NoUartPortSelected
| NoBinFileSelected
| UnableToOpenFile (path : string)
| UnableToConnect
| UnableToGetVersion
| UnsupportedVersion
| UnableToGetChipId
| UnsupportedChipId
| UnableToWriteUnprotect
| UnableToExtendedErase
| UnableToErase
| UnableToProgram
| UnableToRunGo.

Definition stderr_text (m : message) : string :=
  match m with
  | NoUartPortSelected => "No UART port selected, try ./stm32ld -h"
  | NoBinFileSelected => "No bin file selected, try ./stm32ld -h"
  | UnableToOpenFile path => "Unable to open file " ++ path
  | UnableToConnect => "Unable to connect to bootloader"
  | UnableToGetVersion => "Unable to get bootloader version"
  | UnsupportedVersion => "Unsupported bootloader version"
  | UnableToGetChipId => "Unable to get chip ID"
  | UnsupportedChipId => "Unsupported chip ID"
  | UnableToWriteUnprotect => "Unable to execute write unprotect"
  | UnableToExtendedErase => "Unable to extended erase chip"
  | UnableToErase => "Unable to erase chip"
  | UnableToProgram => "Unable to program FLASH memory."
  | UnableToRunGo => "Unable to run Go command."
  end%string.

(** ** Program state *)

(** The file-scope statics [fp] and [fpsize], the function-scope statics
    [expected_next] (of [writeh_progress]) and [timeout] (of the connect
    loop), the number of calls the library has served, and the trace. *)
Record world : Type := {
  fp : option FILE;
  fpsize : Z;
  expected_next : Z;
  timeout : Z;
  init_calls : nat;
  write_calls : nat;
  trace : list event
}.

(** The state at program start: statics hold their initialisers. *)
Definition initial_world : world :=
  {| fp := None; fpsize := 0; expected_next := 10; timeout := 0;
     init_calls := 0; write_calls := 0; trace := [] |}.

Definition set_fp (v : option FILE) (w : world) : world :=
  {| fp := v; fpsize := fpsize w; expected_next := expected_next w;
     timeout := timeout w; init_calls := init_calls w;
     write_calls := write_calls w; trace := trace w |}.

Definition set_fpsize (v : Z) (w : world) : world :=
  {| fp := fp w; fpsize := v; expected_next := expected_next w;
     timeout := timeout w; init_calls := init_calls w;
     write_calls := write_calls w; trace := trace w |}.

Definition set_expected_next (v : Z) (w : world) : world :=
  {| fp := fp w; fpsize := fpsize w; expected_next := v;
     timeout := timeout w; init_calls := init_calls w;
     write_calls := write_calls w; trace := trace w |}.

Definition set_timeout (v : Z) (w : world) : world :=
  {| fp := fp w; fpsize := fpsize w; expected_next := expected_next w;
     timeout := v; init_calls := init_calls w;
     write_calls := write_calls w; trace := trace w |}.

Definition set_init_calls (v : nat) (w : world) : world :=
  {| fp := fp w; fpsize := fpsize w; expected_next := expected_next w;
     timeout := timeout w; init_calls := v;
     write_calls := write_calls w; trace := trace w |}.

Definition set_write_calls (v : nat) (w : world) : world :=
  {| fp := fp w; fpsize := fpsize w; expected_next := expected_next w;
     timeout := timeout w; init_calls := init_calls w;
     write_calls := v; trace := trace w |}.

Definition log (e : event) (w : world) : world :=
  {| fp := fp w; fpsize := fpsize w; expected_next := expected_next w;
     timeout := timeout w; init_calls := init_calls w;
     write_calls := write_calls w; trace := trace w ++ [e] |}.

(** ** The monad of the driver: state, [exit], faults *)

(** How a computation stops early: [exit(code)] after a message on
    stderr, a fault of the C program (division by zero, a null stream, a
    read past an array), or a loop of the model that ran out of fuel. *)
Inductive halt : Type :=
| Exit (code : Z) (m : message)
| Fault
| OutOfFuel.

Inductive outcome (A : Type) : Type :=
| Ret (a : A)
| Halt (h : halt).

Arguments Ret {A} a.
Arguments Halt {A} h.

Definition M (A : Type) : Type := world -> outcome A * world.

Definition ret {A} (a : A) : M A := fun w => (Ret a, w).

Definition bind {A B} (c : M A) (k : A -> M B) : M B :=
  fun w =>
    match c w with
    | (Ret a, w') => k a w'
    | (Halt h, w') => (Halt h, w')
    end.

Declare Scope drv_scope.
Delimit Scope drv_scope with drv.
Notation "x <- c ;; k" := (bind c (fun x => k))
  (at level 61, c at next level, right associativity) : drv_scope.
Notation "c ;; k" := (bind c (fun _ => k))
  (at level 61, right associativity) : drv_scope.
Open Scope drv_scope.

Definition exit {A} (code : Z) (m : message) : M A :=
  fun w => (Halt (Exit code m), w).
Definition fault {A} : M A := fun w => (Halt Fault, w).
Definition out_of_fuel {A} : M A := fun w => (Halt OutOfFuel, w).
Definition emit (e : event) : M unit := fun w => (Ret tt, log e w).
Definition get {A} (f : world -> A) : M A := fun w => (Ret (f w), w).
Definition modify (f : world -> world) : M unit := fun w => (Ret tt, f w).

(** ** Callbacks of the flash programmer *)

(** [fread(dst, 1, len, fp)] on a regular file: the bytes up to [len]
    that are left; the end-of-file indicator is set when fewer than [len]
    could be delivered. *)
Definition fread (len : Z) (f : FILE) : list byte * FILE :=
  let rest := skipn (f_pos f) (f_data f) in
  let got := firstn (Z.to_nat len) rest in
  (got,
   {| f_data := f_data f;
      f_pos := (f_pos f + List.length got)%nat;
      f_eof := f_eof f || (Z.of_nat (List.length got) <? len) |}).

(** [writeh_read_data]: the bytes stored at [dst]; the function returns
    their number. *)
Definition writeh_read_data (len : Z) : M (list byte) :=
  o <- get fp ;;
  match o with
  | None => fault
  | Some f =>
      if negb (f_eof f)
      then let (got, f') := fread len f in
           modify (set_fp (Some f')) ;; ret got
      else ret []
  end.

(** [writeh_progress]: [wrote * 100] is computed in [u32]; the division
    by [fpsize] faults when [fpsize] is 0; [expected_next] is converted
    to unsigned for the comparison. *)
Definition writeh_progress (wrote : Z) : M unit :=
  size <- get fpsize ;;
  if size =? 0 then fault
  else
    let pwrite := u32 (wrote * 100) / size in
    next <- get expected_next ;;
    if pwrite >=? u32 next
    then emit (EvProgress next) ;;
         modify (set_expected_next (s32 (next + 10)))
    else ret tt.

(** A sequence of invocations of the progress callback, as the flash
    programmer makes them: one per written block. *)
Fixpoint progress_calls (wrotes : list Z) : M unit :=
  match wrotes with
  | [] => ret tt
  | wrote :: rest => writeh_progress wrote ;; progress_calls rest
  end.

(** The percentages printed in a trace. *)
Fixpoint fired (tr : list event) : list Z :=
  match tr with
  | [] => []
  | EvProgress p :: tr' => p :: fired tr'
  | _ :: tr' => fired tr'
  end.

(** The state in which the first progress call is made for a file of
    [size] bytes. *)
Definition programming_world (size : Z) : world :=
  set_fpsize size initial_world.

(** ** The flash programmer *)

(** Modelled from the spec: the largest block of one write-memory
    command ("bounded by the protocol's maximum payload, e.g. 256
    bytes"); the constant is declared in stm32ld.h, which is missing. *)
Definition STM32_WRITE_BUFSIZE : Z := 256.

Section Library.

Variable dev : device.

Definition stm32_init (port : string) (baud : Z) : M stm32_result :=
  k <- get init_calls ;;
  modify (set_init_calls (S k)) ;;
  emit (EvInit port baud (dev_init dev k)) ;;
  ret (dev_init dev k).

(** [major] and [minor] are [u8] objects, [version] a [u16] one. *)
Definition stm32_get_version : M (option (Z * Z)) :=
  let r := match dev_get_version dev with
           | Some (major, minor) => Some (u8 major, u8 minor)
           | None => None
           end in
  emit (EvGetVersion r) ;; ret r.

Definition stm32_get_chip_id : M (option Z) :=
  let r := match dev_get_chip_id dev with
           | Some version => Some (u16 version)
           | None => None
           end in
  emit (EvGetChipId r) ;; ret r.

Definition stm32_write_unprotect : M stm32_result :=
  emit (EvWriteUnprotect (dev_write_unprotect dev)) ;;
  ret (dev_write_unprotect dev).

Definition stm32_extended_erase_flash : M stm32_result :=
  emit (EvExtendedErase (dev_extended_erase dev)) ;;
  ret (dev_extended_erase dev).

Definition stm32_erase_flash : M stm32_result :=
  emit (EvErase (dev_erase dev)) ;;
  ret (dev_erase dev).

Definition stm32_go_command : M stm32_result :=
  emit (EvGo (dev_go dev)) ;;
  ret (dev_go dev).

(** One write-memory command for the block [chunk] at [address]. *)
Definition write_memory (address : Z) (chunk : list byte) : M stm32_result :=
  k <- get write_calls ;;
  modify (set_write_calls (S k)) ;;
  emit (EvWriteMemory address chunk (dev_write_memory dev k)) ;;
  ret (dev_write_memory dev k).

(** Modelled from the spec: the transfer loop of [stm32_write_flash]
    (stm32ld.c is missing), section 4.5: call the data source for up to
    the maximum block; zero bytes end the transfer; otherwise issue a
    write-memory command at the current address, require ACK, advance
    the address and the byte count by the block length and invoke the
    progress callback with the byte count. *)
Fixpoint write_loop (fuel : nat)
    (read_data : Z -> M (list byte)) (progress : Z -> M unit)
    (address wrote : Z) : M stm32_result :=
  match fuel with
  | O => out_of_fuel
  | S fuel' =>
      chunk <- read_data STM32_WRITE_BUFSIZE ;;
      let datalen := Z.of_nat (List.length chunk) in
      if datalen =? 0 then ret STM32_OK
      else
        r <- write_memory address chunk ;;
        if is_ok r
        then progress (u32 (wrote + datalen)) ;;
             write_loop fuel' read_data progress
               (u32 (address + datalen)) (u32 (wrote + datalen))
        else ret STM32_NOT_OK
  end.

(** Modelled from the spec: [stm32_write_flash], starting at the flash
    base address with nothing written. *)
Definition stm32_write_flash (fuel : nat)
    (read_data : Z -> M (list byte)) (progress : Z -> M unit)
    : M stm32_result :=
  emit EvWriteFlash ;;
  write_loop fuel read_data progress (u32 (dev_flash_base dev)) 0.

End Library.

(** ** main *)

(** [struct STM32PrgramParam], as [Cli_parseArgs] has filled it. *)
Record ProgParam : Type := {
  port : string;
  file : string;
  baudrate : Z;
  skip_flash : Z;
  send_go : Z
}.

Definition set_skip_flash (v : Z) (p : ProgParam) : ProgParam :=
  {| port := port p; file := file p; baudrate := baudrate p;
     skip_flash := v; send_go := send_go p |}.

Definition BL_VERSION_MAJOR : Z := 2.
Definition BL_VERSION_MINOR : Z := 1.
Definition BL_MKVER (major minor : Z) : Z := major * 256 + minor.
Definition BL_MINVERSION : Z := BL_MKVER BL_VERSION_MAJOR BL_VERSION_MINOR.

Definition SUPPORTED_CHIP_IDS : list Z := [0x0410; 0x0414; 0x0413; 0x0440; 0].

Definition char_code (c : ascii) : Z := Z.of_nat (nat_of_ascii c).

(** [s[0]] of a NUL-terminated string. *)
Definition first_char (s : string) : Z :=
  match s with
  | EmptyString => 0
  | String c _ => char_code c
  end.

Definition strlen (s : string) : Z := Z.of_nat (String.length s).

Fixpoint strncmp (a b : string) (n : nat) : Z :=
  match n with
  | O => 0
  | S n' =>
      match a, b with
      | EmptyString, EmptyString => 0
      | EmptyString, String d _ => 0 - char_code d
      | String c _, EmptyString => char_code c
      | String c a', String d b' =>
          if char_code c =? char_code d then strncmp a' b' n'
          else char_code c - char_code d
      end
  end.

(** [fseek(fp, 0, SEEK_END)], [ftell(fp)], [fseek(fp, 0, SEEK_SET)]. *)
Definition fseek_end (f : FILE) : FILE :=
  {| f_data := f_data f; f_pos := List.length (f_data f); f_eof := false |}.
Definition ftell (f : FILE) : Z := Z.of_nat (f_pos f).
Definition fseek_set (f : FILE) : FILE :=
  {| f_data := f_data f; f_pos := 0; f_eof := false |}.

(** The walk over [SUPPORTED_CHIP_IDS]: [chip_ids] is the part of the
    array from the pointer on; the result is [*chip_ids] when the loop is
    left. *)
Fixpoint chip_ids_scan (chip_ids : list Z) (version : Z) : option Z :=
  match chip_ids with
  | [] => None
  | c :: rest =>
      if c =? 0 then Some c
      else if c =? version then Some c
      else chip_ids_scan rest version
  end.

(** The identifiers the walk can stop at: the entries before the
    terminating 0. *)
Fixpoint before_sentinel (ids : list Z) : list Z :=
  match ids with
  | [] => []
  | c :: rest => if c =? 0 then [] else c :: before_sentinel rest
  end.

Definition SupportedChipIds : list Z := before_sentinel SUPPORTED_CHIP_IDS.

(** Lines 172-186: the membership test on the reported chip ID. *)
Definition chip_id_check (version : Z) : M unit :=
  match chip_ids_scan SUPPORTED_CHIP_IDS version with
  | None => fault
  | Some c => if c =? 0 then exit 1 UnsupportedChipId else ret tt
  end.

(** Lines 157-161: the test on the reported bootloader version. *)
Definition version_check (major minor : Z) : M unit :=
  if BL_MKVER major minor <? BL_MINVERSION
  then exit 1 UnsupportedVersion
  else ret tt.

(** Bytes the open stream can still deliver. *)
Definition bytes_left (w : world) : nat :=
  match fp w with
  | Some f => List.length (f_data f) - f_pos f
  | None => 0
  end.

Section Driver.

Variable dev : device.
Variable fs : filesystem.

Definition fopen (path : string) : M bool :=
  match fs path with
  | Some data =>
      modify (set_fp (Some {| f_data := data; f_pos := 0; f_eof := false |})) ;;
      emit (EvFopen path true) ;; ret true
  | None =>
      modify (set_fp None) ;;
      emit (EvFopen path false) ;; ret false
  end.

Definition fclose : M unit :=
  o <- get fp ;;
  match o with
  | None => fault
  | Some _ => emit EvFclose
  end.

(** Lines 122-124: the size of the open file, stored in [u32 fpsize]. *)
Definition measure_file : M unit :=
  o <- get fp ;;
  match o with
  | None => fault
  | Some f =>
      let f1 := fseek_end f in
      modify (set_fpsize (u32 (ftell f1))) ;;
      modify (set_fp (Some (fseek_set f1)))
  end.

(** Lines 94-127: the parameter checks; the result is [ProgParam] with
    [skip_flash] as the checks leave it. *)
Definition check_parameters (pp : ProgParam) : M ProgParam :=
  (if first_char (port pp) =? 0 then exit 1 NoUartPortSelected else ret tt) ;;
  if skip_flash pp =? 0
  then
    (if first_char (port pp) =? 0 then exit 1 NoBinFileSelected else ret tt) ;;
    if (strlen (file pp) =? 1) && (strncmp (file pp) "0" 1 =? 0)
    then ret (set_skip_flash 1 pp)
    else
      opened <- fopen (file pp) ;;
      if opened
      then measure_file ;; ret pp
      else exit 1 (UnableToOpenFile (file pp))
  else ret pp.

(** Lines 131-143: the connect loop.  Each round of [fuel] is one
    evaluation of the loop condition. *)
Fixpoint connect_loop (fuel : nat) (port : string) (baudrate : Z) : M unit :=
  match fuel with
  | O => out_of_fuel
  | S fuel' =>
      r <- stm32_init dev port baudrate ;;
      if is_ok r then ret tt
      else
        t <- get timeout ;;
        modify (set_timeout (s32 (t + 1))) ;;
        t <- get timeout ;;
        emit (EvRetry t) ;;
        emit (EvSleep 1) ;;
        if t >? 60 then exit 1 UnableToConnect
        else connect_loop fuel' port baudrate
  end.

(** Fuel for the connect loop: [timeout] counts the failed attempts
    from 0 and the loop is left once it exceeds 60. *)
Definition CONNECT_FUEL : nat := 62.

(** Lines 145-162. *)
Definition get_version_step : M (Z * Z) :=
  r <- stm32_get_version dev ;;
  match r with
  | None => exit 1 UnableToGetVersion
  | Some (major, minor) => version_check major minor ;; ret (major, minor)
  end.

(** Lines 164-187. *)
Definition get_chip_id_step : M unit :=
  r <- stm32_get_chip_id dev ;;
  match r with
  | None => exit 1 UnableToGetChipId
  | Some version => chip_id_check version
  end.

(** Lines 200-221: the erase, by the major version of the bootloader. *)
Definition erase_step (major : Z) : M unit :=
  if major =? 3
  then
    r <- stm32_extended_erase_flash dev ;;
    if is_ok r then ret tt else exit 1 UnableToExtendedErase
  else
    r <- stm32_erase_flash dev ;;
    if is_ok r then ret tt else exit 1 UnableToErase.

(** Lines 223-234: programming.  The transfer loop gets one round of
    fuel per byte left in the file, and one for the final empty read. *)
Definition program_step : M unit :=
  n <- get bytes_left ;;
  r <- stm32_write_flash dev (S n) writeh_read_data writeh_progress ;;
  (if is_ok r then ret tt else exit 1 UnableToProgram) ;;
  fclose.

(** Lines 189-237. *)
Definition flash_step (pp : ProgParam) (major : Z) : M unit :=
  if skip_flash pp =? 0
  then
    r <- stm32_write_unprotect dev ;;
    (if is_ok r then ret tt else exit 1 UnableToWriteUnprotect) ;;
    erase_step major ;;
    program_step
  else ret tt.

(** Lines 239-248. *)
Definition go_step (pp : ProgParam) : M unit :=
  if send_go pp =? 1
  then
    r <- stm32_go_command dev ;;
    if is_ok r then ret tt else exit 1 UnableToRunGo
  else ret tt.

Definition main (pp : ProgParam) : M Z :=
  pp <- check_parameters pp ;;
  connect_loop CONNECT_FUEL (port pp) (baudrate pp) ;;
  v <- get_version_step ;;
  get_chip_id_step ;;
  flash_step pp (fst v) ;;
  go_step pp ;;
  ret 0.

End Driver.

(** The run of the program: [main] from the initial state. *)
Definition run (dev : device) (fs : filesystem) (pp : ProgParam)
  : outcome Z * world :=
  main dev fs pp initial_world.

(** ** Vocabulary of the statements *)

(** The first [k] percentages the progress callback can print. *)
Definition thresholds (k : nat) : list Z :=
  map (fun i => 10 * Z.of_nat i) (seq 1 k).

(** The percentage that [writeh_progress] computes for [wrote] bytes of
    a file of [size] bytes. *)
Definition pwrite_of (size wrote : Z) : Z := u32 (wrote * 100) / size.

(** A call sequence in which no call skips a whole 10% band: the
    percentage of each call lies in the band of the previous call or in
    the next one ([band] is the band of the previous call, 0 before the
    first). *)
Fixpoint band_by_band (size band : Z) (wrotes : list Z) : Prop :=
  match wrotes with
  | [] => True
  | wrote :: rest =>
      band <= pwrite_of size wrote / 10 <= band + 1 /\
      band_by_band size (pwrite_of size wrote / 10) rest
  end.

(** The band of the last call of a sequence. *)
Fixpoint final_band (size band : Z) (wrotes : list Z) : Z :=
  match wrotes with
  | [] => band
  | wrote :: rest => final_band size (pwrite_of size wrote / 10) rest
  end.

(** A transport whose first [N] connect attempts fail and whose later
    ones are acknowledged. *)
Definition fails_then_acks (N : nat) : nat -> stm32_result :=
  fun k => if (k <? N)%nat then STM32_NOT_OK else STM32_OK.

(** What [n] failed connect attempts leave in the trace, the retry
    counter standing at [t] before the first of them. *)
Fixpoint retry_events (port : string) (baud : Z) (t : Z) (n : nat) : list event :=
  match n with
  | O => []
  | S n' =>
      EvInit port baud STM32_NOT_OK :: EvRetry (t + 1) :: EvSleep 1
        :: retry_events port baud (t + 1) n'
  end.

Definition append_trace (l : list event) (w : world) : world :=
  {| fp := fp w; fpsize := fpsize w; expected_next := expected_next w;
     timeout := timeout w; init_calls := init_calls w;
     write_calls := write_calls w; trace := trace w ++ l |}.

(** A device for examples: [N] failed connect attempts, then a
    bootloader that reports [version] and [chip] and acknowledges every
    command. *)
Definition sample_device (N : nat) (version : option (Z * Z)) (chip : option Z)
  : device :=
  {| dev_init := fails_then_acks N;
     dev_get_version := version;
     dev_get_chip_id := chip;
     dev_write_unprotect := STM32_OK;
     dev_extended_erase := STM32_OK;
     dev_erase := STM32_OK;
     dev_flash_base := 0x08000000;
     dev_write_memory := fun _ => STM32_OK;
     dev_go := STM32_OK |}.

(** A file system for examples: one image of [size] zero bytes. *)
Definition sample_fs (size : nat) : filesystem :=
  fun path => if String.eqb path "flash.bin" then Some (repeat Byte.x00 size) else None.

Definition sample_param (file : string) (skip go : Z) : ProgParam :=
  {| port := "/dev/cu.usbmodem"; file := file; baudrate := 9600;
     skip_flash := skip; send_go := go |}.

(** A state in which the file of [data] is open at its start and
    measured as 0 bytes, no write-memory command issued yet, the events
    so far being [t]. *)
Definition wrapped (data : list byte) (t : list event) (w : world) : Prop :=
  fp w = Some {| f_data := data; f_pos := 0; f_eof := false |} /\
  fpsize w = 0 /\ write_calls w = 0%nat /\ trace w = t.

(** The session reaches the state Connected: the connect loop, entered
    in the initial state, returns. *)
Definition connects (dev : device) (port : string) (baud : Z) : bool :=
  match fst (connect_loop dev CONNECT_FUEL port baud initial_world) with
  | Ret _ => true
  | Halt _ => false
  end.

(** Membership in [SupportedChipIds], as a test. *)
Definition supported_chip (version : Z) : bool :=
  existsb (Z.eqb version) SupportedChipIds.

(** Classes of events. *)
Definition is_connect_event (e : event) : bool :=
  match e with
  | EvInit _ _ _ | EvRetry _ | EvSleep _ => true
  | _ => false
  end.

Definition is_block_event (e : event) : bool :=
  match e with
  | EvWriteMemory _ _ _ | EvProgress _ => true
  | _ => false
  end.

Definition is_erase_command (e : event) : bool :=
  match e with
  | EvErase _ | EvExtendedErase _ => true
  | _ => false
  end.

Definition is_program_command (e : event) : bool :=
  match e with
  | EvWriteFlash | EvWriteMemory _ _ _ => true
  | _ => false
  end.

Definition is_go_command (e : event) : bool :=
  match e with
  | EvGo _ => true
  | _ => false
  end.

(** The bootloader commands that follow the handshake. *)
Definition is_command (e : event) : bool :=
  match e with
  | EvGetVersion _ | EvGetChipId _ | EvWriteUnprotect _ | EvExtendedErase _
  | EvErase _ | EvWriteFlash | EvWriteMemory _ _ _ | EvGo _ => true
  | _ => false
  end.

(** What the skip-programming flag suppresses: opening the file and the
    unprotect, erase and programming commands. *)
Definition is_flashing_event (e : event) : bool :=
  match e with
  | EvFopen _ _ | EvFclose | EvWriteUnprotect _ | EvExtendedErase _
  | EvErase _ | EvWriteFlash | EvWriteMemory _ _ _ | EvProgress _ => true
  | _ => false
  end.

(** What has happened in the part [pre] of a trace. *)
Definition handshake_done (pre : list event) : Prop :=
  exists port baud, In (EvInit port baud STM32_OK) pre.

Definition version_obtained (pre : list event) : Prop :=
  exists major minor, In (EvGetVersion (Some (major, minor))) pre.

Definition chip_id_accepted (pre : list event) : Prop :=
  exists v, In (EvGetChipId (Some v)) pre /\ In v SupportedChipIds.

Definition erase_succeeded (pre : list event) : Prop :=
  In (EvErase STM32_OK) pre \/ In (EvExtendedErase STM32_OK) pre.

(** What must have happened before the event [e] may occur. *)
Definition guard (e : event) (pre : list event) : Prop :=
  (is_command e = true -> handshake_done pre)
  /\ (is_erase_command e || is_program_command e || is_go_command e = true ->
      handshake_done pre /\ version_obtained pre /\ chip_id_accepted pre)
  /\ (is_program_command e = true -> erase_succeeded pre).

(** Every event of the trace finds its guard satisfied by the events
    before it. *)
Definition ordered (tr : list event) : Prop :=
  forall pre e post, tr = pre ++ e :: post -> guard e pre.

(** How far a session has come: [ordered] and, from level 1 to 4, the
    handshake, the version, the accepted chip ID, the erase. *)
Definition stage (n : nat) (w : world) : Prop :=
  ordered (trace w)
  /\ ((1 <= n)%nat -> handshake_done (trace w))
  /\ ((2 <= n)%nat -> version_obtained (trace w))
  /\ ((3 <= n)%nat -> chip_id_accepted (trace w))
  /\ ((4 <= n)%nat -> erase_succeeded (trace w)).

(** The level of [stage] that an event needs, and what a level adds. *)
Definition required_level (e : event) : nat :=
  if is_program_command e then 4
  else if is_erase_command e || is_go_command e then 3
  else if is_command e then 1
  else 0.

Definition level_fact (n : nat) (tr : list event) : Prop :=
  match n with
  | 1 => handshake_done tr
  | 2 => version_obtained tr
  | 3 => chip_id_accepted tr
  | 4 => erase_succeeded tr
  | _ => True
  end%nat.

(** The erase commands of a trace, in order. *)
Definition erase_commands (tr : list event) : list event :=
  filter is_erase_command tr.

(** The erase command for a bootloader of major version [major], with
    the answer of the device. *)
Definition erase_command_for (dev : device) (major : Z) : event :=
  if major =? 3
  then EvExtendedErase (dev_extended_erase dev)
  else EvErase (dev_erase dev).

(** The events that decide the erase: the version report, the
    write-unprotect command and the erase commands. *)
Definition is_milestone (e : event) : bool :=
  match e with
  | EvGetVersion _ | EvWriteUnprotect _ | EvExtendedErase _ | EvErase _ => true
  | _ => false
  end.

Definition milestones (tr : list event) : list event := filter is_milestone tr.

(** The milestones a run can leave. *)
Definition erase_shape (dev : device) (l : list event) : Prop :=
  l = []
  \/ (exists r, l = [EvGetVersion r])
  \/ (exists v, l = [EvGetVersion (Some v); EvWriteUnprotect STM32_NOT_OK])
  \/ (exists v, l = [EvGetVersion (Some v); EvWriteUnprotect STM32_OK;
                     erase_command_for dev (fst v)]).

(** [n] successive calls of the data callback for [len] bytes each, as
    the flash programmer makes them; the result is what they delivered,
    in order. *)
Fixpoint read_blocks (n : nat) (len : Z) : M (list byte) :=
  match n with
  | O => ret []
  | S n' =>
      chunk <- writeh_read_data len ;;
      rest <- read_blocks n' len ;;
      ret (chunk ++ rest)
  end.

(** The events after which the run does not go on: a file that cannot
    be opened, a command that fails, a version or a chip ID that is
    turned down.  A failed connect attempt is not among them. *)
Definition is_fatal (e : event) : bool :=
  match e with
  | EvFopen _ opened => negb opened
  | EvGetVersion None => true
  | EvGetVersion (Some (major, minor)) => BL_MKVER major minor <? BL_MINVERSION
  | EvGetChipId None => true
  | EvGetChipId (Some v) => negb (supported_chip v)
  | EvWriteUnprotect r | EvExtendedErase r | EvErase r | EvGo r => negb (is_ok r)
  | _ => false
  end.

Definition clean (tr : list event) : Prop :=
  Forall (fun e => is_fatal e = false) tr.

Definition ends_with (tr l : list event) : Prop := exists pre, tr = pre ++ l.

(** What the trace shows when the process ends with the message [m]. *)
Definition blamed (pp : ProgParam) (m : message) (tr : list event) : Prop :=
  match m with
  | NoUartPortSelected => first_char (port pp) = 0 /\ tr = []
  | NoBinFileSelected => False
  | UnableToOpenFile path => path = file pp /\ tr = [EvFopen (file pp) false]
  | UnableToConnect => ends_with tr [EvRetry 61; EvSleep 1]
  | UnableToGetVersion => ends_with tr [EvGetVersion None]
  | UnsupportedVersion =>
      exists major minor,
        ends_with tr [EvGetVersion (Some (major, minor))] /\
        major * 256 + minor < BL_MINVERSION
  | UnableToGetChipId => ends_with tr [EvGetChipId None]
  | UnsupportedChipId =>
      exists v, ends_with tr [EvGetChipId (Some v)] /\ ~ In v SupportedChipIds
  | UnableToWriteUnprotect => ends_with tr [EvWriteUnprotect STM32_NOT_OK]
  | UnableToExtendedErase => ends_with tr [EvExtendedErase STM32_NOT_OK]
  | UnableToErase => ends_with tr [EvErase STM32_NOT_OK]
  | UnableToProgram => In EvWriteFlash tr
  | UnableToRunGo => ends_with tr [EvGo STM32_NOT_OK]
  end.

(** What holds of the trace when a run halts with [h]. *)
Definition verdict (pp : ProgParam) (h : halt) (tr : list event) : Prop :=
  match h with
  | Exit code m =>
      code = 1 /\ blamed pp m tr /\
      (clean tr \/ exists pre e, tr = pre ++ [e] /\ clean pre /\ is_fatal e = true)
  | Fault | OutOfFuel => clean tr
  end.

(** The steps of a session, the connect attempts and the blocks of the
    transfer left aside. *)
Inductive step : Type :=
| StOpen
| StVersion
| StChipId
| StUnprotect
| StExtendedErase
| StErase
| StProgram
| StClose
| StGo.

Definition step_of (e : event) : list step :=
  match e with
  | EvFopen _ _ => [StOpen]
  | EvGetVersion _ => [StVersion]
  | EvGetChipId _ => [StChipId]
  | EvWriteUnprotect _ => [StUnprotect]
  | EvExtendedErase _ => [StExtendedErase]
  | EvErase _ => [StErase]
  | EvWriteFlash => [StProgram]
  | EvFclose => [StClose]
  | EvGo _ => [StGo]
  | _ => []
  end.

Definition steps (tr : list event) : list step := flat_map step_of tr.

(** Whether the arguments ask for programming: the skip flag is clear
    and the file name is not "0". *)
Definition flashing (pp : ProgParam) : bool :=
  (skip_flash pp =? 0)
  && negb ((strlen (file pp) =? 1) && (strncmp (file pp) "0" 1 =? 0)).

(** The steps of a session that nothing stops, for the arguments [pp]
    and a bootloader of major version [major]. *)
Definition plan (pp : ProgParam) (major : Z) : list step :=
  (if flashing pp then [StOpen] else [])
  ++ [StVersion; StChipId]
  ++ (if flashing pp
      then [StUnprotect; if major =? 3 then StExtendedErase else StErase;
            StProgram; StClose]
      else [])
  ++ (if send_go pp =? 1 then [StGo] else []).

(** The major version as [main] gets it. *)
Definition reported_major (dev : device) : Z :=
  match dev_get_version dev with
  | Some (major, _) => u8 major
  | None => 0
  end.

(** Counting events. *)
Definition is_attempt (e : event) : bool :=
  match e with EvInit _ _ _ => true | _ => false end.

Definition is_failed_attempt (e : event) : bool :=
  match e with EvInit _ _ STM32_NOT_OK => true | _ => false end.

Definition is_sleep (e : event) : bool :=
  match e with EvSleep _ => true | _ => false end.

Definition count (p : event -> bool) (tr : list event) : nat :=
  List.length (filter p tr).

(** Hoare triples of the driver monad: [Q] on return, [E] on a halt. *)
Definition hoare {A} (P : world -> Prop) (c : M A)
    (Q : A -> world -> Prop) (E : halt -> world -> Prop) : Prop :=
  forall w, P w ->
    match c w with
    | (Ret a, w') => Q a w'
    | (Halt h, w') => E h w'
    end.

(** * Properties *)

(** Reduction of field accesses on updated states, and nothing else. *)
Ltac fields :=
  cbn [fp fpsize expected_next timeout init_calls write_calls trace
       set_fp set_fpsize set_expected_next set_timeout set_init_calls
       set_write_calls log append_trace fst snd] in *.

(** ** Machine integers *)

Lemma u32_small (x : Z) : 0 <= x < 4294967296 -> u32 x = x.
Proof. intros H. unfold u32. apply Z.mod_small. exact H. Qed.

Lemma s32_small (x : Z) : - 2147483648 <= x < 2147483648 -> s32 x = x.
Proof.
  intros H. unfold s32. change (2 ^ 31) with 2147483648.
  change (2 ^ 32) with 4294967296. rewrite Z.mod_small; lia.
Qed.

Lemma u32_range (x : Z) : 0 <= u32 x < 4294967296.
Proof. unfold u32. apply Z.mod_pos_bound. reflexivity. Qed.

(** ** The monad *)

Lemma hoare_bind {A B} (c : M A) (k : A -> M B) P Q R E :
  hoare P c Q E ->
  (forall a, hoare (Q a) (k a) R E) ->
  hoare P (bind c k) R E.
Proof.
  intros Hc Hk w HP. unfold bind. specialize (Hc w HP).
  destruct (c w) as [[a | h] w']; [ apply (Hk a w' Hc) | exact Hc ].
Qed.

Lemma hoare_weaken {A} (c : M A) (P P' : world -> Prop)
    (Q Q' : A -> world -> Prop) (E E' : halt -> world -> Prop) :
  hoare P' c Q' E' ->
  (forall w, P w -> P' w) ->
  (forall a w, Q' a w -> Q a w) ->
  (forall h w, E' h w -> E h w) ->
  hoare P c Q E.
Proof.
  intros Hc HP HQ HE w Hw. specialize (Hc w (HP w Hw)).
  destruct (c w) as [[a | h] w']; auto.
Qed.

(** ** The progress callback *)

Lemma fired_app (l1 l2 : list event) : fired (l1 ++ l2) = fired l1 ++ fired l2.
Proof.
  induction l1 as [| e l1 IH]; simpl; [ reflexivity | ].
  destruct e; simpl; rewrite ?IH; reflexivity.
Qed.

Lemma thresholds_S (k : nat) :
  thresholds (S k) = thresholds k ++ [10 * Z.of_nat (S k)].
Proof. unfold thresholds. rewrite seq_S, map_app. reflexivity. Qed.

(** With a [fpsize] that is not 0, a call either prints [expected_next]
    and moves it up by 10, or does nothing. *)
Lemma writeh_progress_step (wrote : Z) (w : world) :
  fpsize w <> 0 ->
  writeh_progress wrote w =
    if u32 (expected_next w) <=? pwrite_of (fpsize w) wrote
    then (Ret tt, set_expected_next (s32 (expected_next w + 10))
                    (log (EvProgress (expected_next w)) w))
    else (Ret tt, w).
Proof.
  intros Hsize. unfold writeh_progress, bind, get, pwrite_of.
  destruct (fpsize w =? 0) eqn:E; [ apply Z.eqb_eq in E; contradiction | ].
  rewrite Z.geb_leb.
  destruct (u32 (expected_next w) <=? u32 (wrote * 100) / fpsize w); reflexivity.
Qed.

(** A divisor of 0 is a fault of the callback: it has no guard. *)
Lemma writeh_progress_zero_size (wrote : Z) (w : world) :
  fpsize w = 0 -> writeh_progress wrote w = (Halt Fault, w).
Proof.
  intros Hsize. unfold writeh_progress, bind, get. rewrite Hsize. reflexivity.
Qed.

(** While [wrote] does not exceed the file size, the percentage does
    not exceed 100, also when [wrote * 100] wraps around. *)
Lemma pwrite_le_100 (size wrote : Z) :
  0 < size < 4294967296 -> 0 <= wrote <= size ->
  0 <= pwrite_of size wrote <= 100.
Proof.
  intros Hs Hw. unfold pwrite_of.
  pose proof (u32_range (wrote * 100)) as Hr.
  split; [ apply Z.div_pos; lia | ].
  assert (Hle : u32 (wrote * 100) <= size * 100).
  { destruct (Z_lt_le_dec (wrote * 100) 4294967296) as [Hlt | Hge].
    - rewrite u32_small by lia. lia.
    - lia. }
  apply Z.div_le_upper_bound; lia.
Qed.

Lemma progress_calls_cons (wrote : Z) (rest : list Z) (w : world) :
  progress_calls (wrote :: rest) w =
    match writeh_progress wrote w with
    | (Ret _, w') => progress_calls rest w'
    | (Halt h, w') => (Halt h, w')
    end.
Proof. reflexivity. Qed.

(** What holds of every call sequence that stays within the file size:
    the printed percentages are 10, 20, ... in this order, each once, none
    above 100; so at most 10 are printed. *)
Lemma progress_calls_prefix (size : Z) (wrotes : list Z) :
  0 < size < 4294967296 ->
  Forall (fun wrote => 0 <= wrote <= size) wrotes ->
  forall (w : world) (j : nat),
    fpsize w = size ->
    expected_next w = 10 * (Z.of_nat j + 1) ->
    (j <= 10)%nat ->
    fired (trace w) = thresholds j ->
    exists (k : nat) (w' : world),
      progress_calls wrotes w = (Ret tt, w') /\
      (j <= k <= 10)%nat /\
      fired (trace w') = thresholds k.
Proof.
  intros Hsize Hall. induction Hall as [| wrote rest Hwrote _ IH];
    intros w j Hfp Hnext Hj Hfired.
  - exists j, w. repeat split; auto; lia.
  - rewrite progress_calls_cons, writeh_progress_step by lia.
    rewrite Hfp, Hnext.
    pose proof (pwrite_le_100 size wrote Hsize Hwrote) as Hp.
    rewrite (u32_small (10 * (Z.of_nat j + 1))) by lia.
    destruct (Z.leb_spec (10 * (Z.of_nat j + 1)) (pwrite_of size wrote)) as [Hge | Hlt].
    + assert (Hj' : (S j <= 10)%nat) by lia.
      destruct (IH (set_expected_next (s32 (10 * (Z.of_nat j + 1) + 10))
                      (log (EvProgress (10 * (Z.of_nat j + 1))) w)) (S j))
        as (k & w' & Hrun & Hk & Hfired'); fields; auto.
      * rewrite s32_small by lia. lia.
      * rewrite fired_app, Hfired, thresholds_S. cbn [fired]. f_equal. f_equal. lia.
      * exists k, w'. repeat split; auto; lia.
    + apply IH; auto.
Qed.

(** When no call skips a band, every boundary up to the band of the last
    call is printed: the callback does report 10, 20, ..., 100 for a
    transfer whose blocks are each less than a tenth of the file. *)
Lemma progress_calls_band_by_band (size : Z) (wrotes : list Z) :
  0 < size < 4294967296 ->
  Forall (fun wrote => 0 <= wrote <= size) wrotes ->
  forall (w : world) (band : Z),
    fpsize w = size ->
    0 <= band <= 10 ->
    expected_next w = 10 * (band + 1) ->
    fired (trace w) = thresholds (Z.to_nat band) ->
    band_by_band size band wrotes ->
    exists w' : world,
      progress_calls wrotes w = (Ret tt, w') /\
      fired (trace w') = thresholds (Z.to_nat (final_band size band wrotes)).
Proof.
  intros Hsize Hall. induction Hall as [| wrote rest Hwrote Hrest IH];
    intros w band Hfp Hband Hnext Hfired Hbands.
  - exists w. split; [ reflexivity | exact Hfired ].
  - destruct Hbands as [Hstep Hbands].
    rewrite progress_calls_cons, writeh_progress_step by lia.
    rewrite Hfp, Hnext. cbn [final_band].
    pose proof (pwrite_le_100 size wrote Hsize Hwrote) as Hp.
    rewrite (u32_small (10 * (band + 1))) by lia.
    set (p := pwrite_of size wrote) in *.
    assert (Hband' : 0 <= p / 10 <= 10).
    { split; [ apply Z.div_pos; lia | apply Z.div_le_upper_bound; lia ]. }
    pose proof (Z.div_mod p 10 ltac:(lia)) as Hdm.
    pose proof (Z.mod_pos_bound p 10 ltac:(lia)) as Hmod.
    destruct (Z.leb_spec (10 * (band + 1)) p) as [Hge | Hlt].
    + assert (Hnextband : p / 10 = band + 1) by lia.
      apply IH; auto.
      * fields. rewrite s32_small by lia. lia.
      * fields. rewrite fired_app, Hfired, Hnextband.
        replace (Z.to_nat (band + 1)) with (S (Z.to_nat band)) by lia.
        rewrite thresholds_S. cbn [fired]. f_equal. f_equal. lia.
    + assert (Hsame : p / 10 = band) by lia.
      apply IH; auto; rewrite Hsame; assumption.
Qed.

(** X5.  From the start of a transfer, whatever the calls, as long as
    no byte count exceeds the file size: at most ten percentages are
    printed, they are 10, 20, ... in this order, each once, and none is
    above 100; no call faults. *)
Corollary progress_calls_bounded (size : Z) (wrotes : list Z) :
  0 < size < 4294967296 ->
  Forall (fun wrote => 0 <= wrote <= size) wrotes ->
  exists k : nat,
    (k <= 10)%nat /\
    fst (progress_calls wrotes (programming_world size)) = Ret tt /\
    fired (trace (snd (progress_calls wrotes (programming_world size))))
      = thresholds k.
Proof.
  intros Hsize Hall.
  destruct (progress_calls_prefix size wrotes Hsize Hall (programming_world size) 0)
    as (k & w' & Hrun & Hk & Hfired); try reflexivity; try lia.
  exists k. rewrite Hrun. repeat split; [ lia | exact Hfired ].
Qed.

(** X6.  From the start of a transfer whose calls go band by band (the
    percentage of a call is never a whole 10% band ahead of the previous
    one) and end in the band of 100%: all of 10, 20, ..., 100 are
    printed. *)
Corollary progress_calls_complete (size : Z) (wrotes : list Z) :
  0 < size < 4294967296 ->
  Forall (fun wrote => 0 <= wrote <= size) wrotes ->
  band_by_band size 0 wrotes ->
  final_band size 0 wrotes = 10 ->
  fired (trace (snd (progress_calls wrotes (programming_world size))))
    = [10; 20; 30; 40; 50; 60; 70; 80; 90; 100].
Proof.
  intros Hsize Hall Hbands Hfinal.
  destruct (progress_calls_band_by_band size wrotes Hsize Hall
              (programming_world size) 0)
    as (w' & Hrun & Hfired); try reflexivity; try lia; try assumption.
  rewrite Hrun. cbn [snd]. rewrite Hfired, Hfinal. reflexivity.
Qed.

(** Ten blocks of a tenth of the file each: every boundary is printed. *)
Lemma progress_calls_complete_witness :
  fired (trace (snd (progress_calls
                       [256; 512; 768; 1024; 1280; 1536; 1792; 2048; 2304; 2560]
                       (programming_world 2560))))
    = [10; 20; 30; 40; 50; 60; 70; 80; 90; 100].
Proof.
  apply progress_calls_complete.
  - lia.
  - repeat constructor; lia.
  - vm_compute. intuition discriminate.
  - reflexivity.
Defined.

(** Three blocks, the second of which crosses five boundaries and the
    third four: three percentages are printed. *)
Lemma progress_calls_bounded_witness :
  exists k : nat,
    (k <= 10)%nat /\
    fst (progress_calls [100; 600; 1000] (programming_world 1000)) = Ret tt /\
    fired (trace (snd (progress_calls [100; 600; 1000] (programming_world 1000))))
      = thresholds k.
Proof.
  apply progress_calls_bounded.
  - lia.
  - repeat constructor; lia.
Defined.

(** C1.  The claim: over every sequence of calls with non-decreasing
    byte counts that reaches the file size, the callback prints each 10%
    boundary exactly once, also when one call crosses several of them.
    The code prints at most one boundary per call.  For a file of 512
    bytes written in two blocks of 256 bytes the calls are
    [writeh_progress 256] (50%) and [writeh_progress 512] (100%): they
    print 10 and 20, [expected_next] is left at 30, and the boundaries 30
    to 100 are never printed. *)
Theorem writeh_progress_one_boundary_per_call :
  pwrite_of 512 256 = 50
  /\ pwrite_of 512 512 = 100
  /\ fst (progress_calls [256; 512] (programming_world 512)) = Ret tt
  /\ fired (trace (snd (progress_calls [256; 512] (programming_world 512))))
       = [10; 20]
  /\ expected_next (snd (progress_calls [256; 512] (programming_world 512))) = 30
  /\ fired (trace (snd (progress_calls [256; 512] (programming_world 512))))
       <> thresholds 10.
Proof.
  repeat split; try reflexivity.
  vm_compute. discriminate.
Qed.

(** ** The connect loop *)

Lemma world_eq (w : world) a b c d e f g :
  fp w = a -> fpsize w = b -> expected_next w = c -> timeout w = d ->
  init_calls w = e -> write_calls w = f -> trace w = g ->
  w = {| fp := a; fpsize := b; expected_next := c; timeout := d;
         init_calls := e; write_calls := f; trace := g |}.
Proof. destruct w. cbn. intros. subst. reflexivity. Qed.

Section ConnectLoop.

Variable dev : device.
Variables (port : string) (baud : Z).

(** One failed attempt: the counter goes up by one, and unless it has
    passed 60 the loop goes round again. *)
Lemma connect_loop_failed (fuel : nat) (w : world) :
  dev_init dev (init_calls w) = STM32_NOT_OK ->
  0 <= timeout w <= 60 ->
  connect_loop dev (S fuel) port baud w =
    let w' := set_timeout (timeout w + 1)
                (set_init_calls (S (init_calls w))
                   (append_trace (retry_events port baud (timeout w) 1) w)) in
    if timeout w + 1 >? 60
    then (Halt (Exit 1 UnableToConnect), w')
    else connect_loop dev fuel port baud w'.
Proof.
  intros Hfail Ht.
  cbn [connect_loop]. unfold bind at 1.
  unfold stm32_init, bind, get, modify, emit, ret. fields.
  rewrite Hfail. cbn [is_ok]. fields.
  rewrite s32_small by lia.
  unfold log, set_timeout, set_init_calls, append_trace, exit. fields.
  cbn [retry_events]. rewrite <- !app_assoc. cbn [app].
  destruct (timeout w + 1 >? 60); reflexivity.
Qed.

Lemma connect_loop_acked (fuel : nat) (w : world) :
  dev_init dev (init_calls w) = STM32_OK ->
  connect_loop dev (S fuel) port baud w =
    (Ret tt, set_init_calls (S (init_calls w))
               (append_trace [EvInit port baud STM32_OK] w)).
Proof.
  intros Hok. cbn [connect_loop]. unfold bind at 1.
  unfold stm32_init, bind, get, modify, emit, ret. fields.
  rewrite Hok. reflexivity.
Qed.

(** [n] failures and then an acknowledgement, within the budget. *)
Lemma connect_loop_retries (n : nat) :
  forall (fuel : nat) (w : world),
    (forall i, (i < n)%nat -> dev_init dev (init_calls w + i) = STM32_NOT_OK) ->
    dev_init dev (init_calls w + n) = STM32_OK ->
    0 <= timeout w -> timeout w + Z.of_nat n <= 60 ->
    (n < fuel)%nat ->
    connect_loop dev fuel port baud w =
      (Ret tt,
       set_timeout (timeout w + Z.of_nat n)
         (set_init_calls (init_calls w + S n)
            (append_trace
               (retry_events port baud (timeout w) n ++ [EvInit port baud STM32_OK])
               w))).
Proof.
  induction n as [| n IH]; intros fuel w Hfail Hok Ht Hbudget Hfuel;
    (destruct fuel as [| fuel]; [ lia | ]).
  - rewrite Nat.add_0_r in Hok. rewrite connect_loop_acked by exact Hok.
    f_equal. apply world_eq; fields; try reflexivity; lia.
  - rewrite connect_loop_failed; [ | rewrite <- (Nat.add_0_r (init_calls w)); apply Hfail; lia | lia ].
    cbv zeta. destruct (Z.gtb_spec (timeout w + 1) 60) as [Hgt | Hle]; [ lia | ].
    rewrite IH; fields.
    + f_equal. apply world_eq; fields; try reflexivity; try lia.
      cbn [retry_events]. rewrite <- !app_assoc. reflexivity.
    + intros i Hi. replace (S (init_calls w) + i)%nat with (init_calls w + S i)%nat by lia.
      apply Hfail. lia.
    + replace (S (init_calls w) + n)%nat with (init_calls w + S n)%nat by lia. exact Hok.
    + lia.
    + lia.
    + lia.
Qed.

(** Failures until the counter passes 60. *)
Lemma connect_loop_gives_up (n : nat) :
  forall (fuel : nat) (w : world),
    (forall i, (i < n)%nat -> dev_init dev (init_calls w + i) = STM32_NOT_OK) ->
    0 <= timeout w <= 60 -> timeout w + Z.of_nat n = 61 ->
    (n <= fuel)%nat ->
    connect_loop dev fuel port baud w =
      (Halt (Exit 1 UnableToConnect),
       set_timeout 61
         (set_init_calls (init_calls w + n)
            (append_trace (retry_events port baud (timeout w) n) w))).
Proof.
  induction n as [| n IH]; intros fuel w Hfail Ht Hbudget Hfuel; [ lia | ].
  destruct fuel as [| fuel]; [ lia | ].
  rewrite connect_loop_failed; [ | rewrite <- (Nat.add_0_r (init_calls w)); apply Hfail; lia | lia ].
  cbv zeta. destruct (Z.gtb_spec (timeout w + 1) 60) as [Hgt | Hle].
  - assert (n = 0%nat) by lia. subst n.
    f_equal. apply world_eq; fields; try reflexivity; lia.
  - rewrite IH; fields.
    + f_equal. apply world_eq; fields; try reflexivity; try lia.
      cbn [retry_events]. rewrite <- !app_assoc. reflexivity.
    + intros i Hi. replace (S (init_calls w) + i)%nat with (init_calls w + S i)%nat by lia.
      apply Hfail. lia.
    + lia.
    + lia.
    + lia.
Qed.

End ConnectLoop.

(** C2, as the code has it.  When the first [N] connect attempts fail
    and the next one is acknowledged, the connect loop returns (the
    session is Connected) iff [N <= 60], after [N] failed attempts, each
    followed by a sleep of one second; for [N >= 61] the loop ends the
    process with "Unable to connect to bootloader" once the 61st attempt
    has failed and its sleep is over.  The retry counter is compared with
    [timeout > 60] after it has been incremented. *)
Theorem connect_loop_budget (dev : device) (port : string) (baud : Z)
    (w : world) (N : nat) :
  (forall k, dev_init dev k = fails_then_acks N k) ->
  timeout w = 0 ->
  init_calls w = 0%nat ->
  connect_loop dev CONNECT_FUEL port baud w =
    if (N <=? 60)%nat
    then (Ret tt,
          set_timeout (Z.of_nat N)
            (set_init_calls (S N)
               (append_trace
                  (retry_events port baud 0 N ++ [EvInit port baud STM32_OK]) w)))
    else (Halt (Exit 1 UnableToConnect),
          set_timeout 61
            (set_init_calls 61
               (append_trace (retry_events port baud 0 61) w))).
Proof.
  intros Hdev Ht Hcalls.
  destruct (Nat.leb_spec N 60) as [Hle | Hgt].
  - rewrite (connect_loop_retries dev port baud N); rewrite ?Ht, ?Hcalls.
    + reflexivity.
    + intros i Hi. rewrite Hdev. unfold fails_then_acks.
      destruct (Nat.ltb_spec (0 + i) N); [ reflexivity | lia ].
    + rewrite Hdev. unfold fails_then_acks.
      destruct (Nat.ltb_spec (0 + N) N); [ lia | reflexivity ].
    + lia.
    + lia.
    + unfold CONNECT_FUEL. lia.
  - rewrite (connect_loop_gives_up dev port baud 61); rewrite ?Ht, ?Hcalls.
    + reflexivity.
    + intros i Hi. rewrite Hdev. unfold fails_then_acks.
      destruct (Nat.ltb_spec (0 + i) N); [ reflexivity | lia ].
    + lia.
    + lia.
    + unfold CONNECT_FUEL. lia.
Qed.

Lemma connect_loop_budget_witness :
  connect_loop (sample_device 60 None None) CONNECT_FUEL "/dev/cu.usbmodem" 9600
      initial_world =
    (Ret tt,
     set_timeout 60
       (set_init_calls 61
          (append_trace
             (retry_events "/dev/cu.usbmodem" 9600 0 60
                ++ [EvInit "/dev/cu.usbmodem" 9600 STM32_OK])
             initial_world))).
Proof.
  exact (connect_loop_budget (sample_device 60 None None) "/dev/cu.usbmodem" 9600
           initial_world 60 (fun k => eq_refl) eq_refl eq_refl).
Defined.

(** C2, as the spec has it: "the session connects iff N < 60".  After
    60 failed attempts the counter stands at 60, which is not above 60,
    and the 61st attempt is made: the session connects. *)
Lemma connects_after_60_failures :
  ~ (forall N : nat,
       connects (sample_device N None None) "/dev/cu.usbmodem" 9600 = true
       <-> (N < 60)%nat).
Proof.
  intros Hclaim. destruct (Hclaim 60%nat) as [Hconnects _].
  assert (H : (60 < 60)%nat) by (apply Hconnects; vm_compute; reflexivity).
  lia.
Qed.

(** ** The data callback and an empty file *)

Lemma fread_at_end (len : Z) (f : FILE) :
  (List.length (f_data f) <= f_pos f)%nat ->
  0 < len ->
  fread len f = ([], {| f_data := f_data f; f_pos := f_pos f; f_eof := true |}).
Proof.
  intros Hend Hlen. unfold fread.
  rewrite skipn_all2 by exact Hend. rewrite firstn_nil. cbn [List.length].
  rewrite Nat.add_0_r. replace (Z.of_nat 0 <? len) with true.
  - rewrite orb_true_r. reflexivity.
  - symmetry. apply Z.ltb_lt. exact Hlen.
Qed.

(** What lines 115-124 establish for a file that [ftell] can measure in
    32 bits: [fpsize] is the number of bytes the data callback is going to
    deliver. *)
Lemma measure_file_size (data : list byte) (w : world) :
  Z.of_nat (List.length data) < 4294967296 ->
  fp w = Some {| f_data := data; f_pos := 0; f_eof := false |} ->
  exists w',
    measure_file w = (Ret tt, w') /\
    fp w' = Some {| f_data := data; f_pos := 0; f_eof := false |} /\
    fpsize w' = Z.of_nat (List.length data) /\
    Z.of_nat (bytes_left w') = fpsize w' /\
    trace w' = trace w.
Proof.
  intros Hsize Hfp. unfold measure_file, bind, get, modify. rewrite Hfp.
  eexists. split; [ reflexivity | ]. unfold bytes_left. fields.
  unfold fseek_set, fseek_end, ftell. cbn [f_data f_pos].
  rewrite u32_small by lia. repeat split. lia.
Qed.

(** The empty file: with a size [fpsize] of 0 and a stream that has
    nothing left to deliver, programming is a no-op: the first read
    returns nothing, no write-memory command is issued, and the progress
    callback, whose division by [fpsize] would fault, is not called. *)
Theorem program_step_empty_file (dev : device) (w : world) (f : FILE) :
  fp w = Some f ->
  f_eof f = false ->
  Z.of_nat (bytes_left w) = fpsize w ->
  fpsize w = 0 ->
  program_step dev w =
    (Ret tt,
     append_trace [EvWriteFlash; EvFclose]
       (set_fp (Some {| f_data := f_data f; f_pos := f_pos f; f_eof := true |}) w)).
Proof.
  intros Hfp Heof Hcontract Hsize.
  assert (Hleft : bytes_left w = 0%nat) by lia.
  assert (Hend : (List.length (f_data f) <= f_pos f)%nat).
  { unfold bytes_left in Hleft. rewrite Hfp in Hleft. lia. }
  unfold program_step, bind at 1, get. rewrite Hleft.
  unfold stm32_write_flash, bind at 1. unfold bind at 1. unfold emit at 1.
  cbn [write_loop]. unfold bind at 1.
  unfold writeh_read_data, bind at 1. unfold get at 1. fields. rewrite Hfp, Heof.
  cbn [negb]. rewrite fread_at_end by (exact Hend || reflexivity).
  unfold bind, modify, ret. cbn [List.length Z.of_nat Z.eqb is_ok].
  unfold fclose, get, emit, bind. fields.
  f_equal. apply world_eq; fields; try reflexivity.
  rewrite <- app_assoc. reflexivity.
Qed.

Lemma program_step_empty_file_witness :
  program_step (sample_device 0 (Some (2, 1)) (Some 0x0410))
      (set_fp (Some {| f_data := []; f_pos := 0; f_eof := false |}) initial_world) =
    (Ret tt,
     append_trace [EvWriteFlash; EvFclose]
       (set_fp (Some {| f_data := []; f_pos := 0; f_eof := true |}) initial_world)).
Proof.
  exact (program_step_empty_file (sample_device 0 (Some (2, 1)) (Some 0x0410))
           (set_fp (Some {| f_data := []; f_pos := 0; f_eof := false |}) initial_world)
           {| f_data := []; f_pos := 0; f_eof := false |}
           eq_refl eq_refl eq_refl eq_refl).
Defined.

(** With bytes left the callback is reached: when [fpsize] is 0
    and the source still delivers a block (a file whose size is a
    multiple of 2^32 other than 0), the first acknowledged block is
    followed by the division by zero. *)
Lemma program_step_zero_size_nonempty (dev : device) (w : world) (f : FILE) :
  fp w = Some f ->
  f_eof f = false ->
  (f_pos f < List.length (f_data f))%nat ->
  fpsize w = 0 ->
  dev_write_memory dev (write_calls w) = STM32_OK ->
  fst (program_step dev w) = Halt Fault.
Proof.
  intros Hfp Heof Hleft Hsize Hack.
  unfold program_step, bind at 1, get.
  unfold stm32_write_flash, bind at 1. unfold bind at 1. unfold emit at 1.
  cbn [write_loop]. unfold bind at 1.
  unfold writeh_read_data, bind at 1. unfold get at 1. fields. rewrite Hfp, Heof.
  cbn [negb]. unfold fread.
  destruct (skipn (f_pos f) (f_data f)) as [| b rest] eqn:Hskip.
  - apply (f_equal (@List.length byte)) in Hskip. rewrite length_skipn in Hskip.
    cbn in Hskip. lia.
  - set (got := firstn (Z.to_nat STM32_WRITE_BUFSIZE) (b :: rest)).
    assert (Hgot : Z.of_nat (List.length got) <> 0).
    { subst got. rewrite length_firstn. cbn [List.length].
      change (Z.to_nat STM32_WRITE_BUFSIZE) with 256%nat. lia. }
    unfold bind at 1. unfold modify at 1, ret at 1.
    destruct (Z.eqb_spec (Z.of_nat (List.length got)) 0) as [Hzero | _];
      [ contradiction | ].
    unfold bind at 1. unfold write_memory, bind, get, modify, emit, ret. fields.
    rewrite Hack. cbn [is_ok]. rewrite writeh_progress_zero_size by exact Hsize.
    reflexivity.
Qed.

(** The same run of the programming step, event by event: the call, one
    write-memory command for the first block, acknowledged, and the
    fault in the progress callback that follows it. *)
Lemma program_step_zero_size_trace (dev : device) (w : world) (f : FILE) :
  fp w = Some f ->
  f_eof f = false ->
  (f_pos f < List.length (f_data f))%nat ->
  fpsize w = 0 ->
  dev_write_memory dev (write_calls w) = STM32_OK ->
  exists w',
    program_step dev w = (Halt Fault, w') /\
    fpsize w' = 0 /\
    trace w' =
      trace w ++
    [EvWriteFlash;
     EvWriteMemory (u32 (dev_flash_base dev))
       (firstn (Z.to_nat STM32_WRITE_BUFSIZE) (skipn (f_pos f) (f_data f)))
       STM32_OK].
Proof.
  intros Hfp Heof Hleft Hsize Hack.
  unfold program_step, bind at 1, get.
  unfold stm32_write_flash, bind at 1. unfold bind at 1. unfold emit at 1.
  cbn [write_loop]. unfold bind at 1.
  unfold writeh_read_data, bind at 1. unfold get at 1. fields. rewrite Hfp, Heof.
  cbn [negb]. unfold fread.
  destruct (skipn (f_pos f) (f_data f)) as [| b rest] eqn:Hskip.
  - apply (f_equal (@List.length byte)) in Hskip. rewrite length_skipn in Hskip.
    cbn in Hskip. lia.
  - set (got := firstn (Z.to_nat STM32_WRITE_BUFSIZE) (b :: rest)).
    assert (Hgot : Z.of_nat (List.length got) <> 0).
    { subst got. rewrite length_firstn. cbn [List.length].
      change (Z.to_nat STM32_WRITE_BUFSIZE) with 256%nat. lia. }
    unfold bind at 1. unfold modify at 1, ret at 1.
    destruct (Z.eqb_spec (Z.of_nat (List.length got)) 0) as [Hzero | _];
      [ contradiction | ].
    unfold bind at 1. unfold write_memory, bind, get, modify, emit, ret. fields.
    rewrite Hack. cbn [is_ok]. rewrite writeh_progress_zero_size by exact Hsize.
    eexists. split; [ reflexivity | ]. fields. rewrite <- app_assoc. auto.
Qed.

(** ** The chip ID table *)

(** The walk stops at a non-zero entry exactly for the identifiers
    before the sentinel. *)
Lemma chip_ids_scan_accepts (ids : list Z) (version : Z) :
  (exists c, chip_ids_scan ids version = Some c /\ c <> 0)
  <-> In version (before_sentinel ids).
Proof.
  induction ids as [| c rest IH]; cbn [chip_ids_scan before_sentinel].
  - split; [ intros (c & H & _); discriminate | intros [] ].
  - destruct (Z.eqb_spec c 0) as [Hzero | Hnonzero].
    + split; [ intros (c' & H & Hc'); congruence | intros [] ].
    + destruct (Z.eqb_spec c version) as [Heq | Hneq].
      * split; [ intros _; left; exact Heq | intros _; exists c; auto ].
      * rewrite IH. cbn [In]. tauto.
Qed.

(** No walk accepts the value of the sentinel. *)
Lemma before_sentinel_nonzero (ids : list Z) : ~ In 0 (before_sentinel ids).
Proof.
  induction ids as [| c rest IH]; cbn [before_sentinel]; [ tauto | ].
  destruct (Z.eqb_spec c 0); cbn [In]; tauto.
Qed.

(** A table with a sentinel is never left at its far end. *)
Lemma chip_ids_scan_total (ids : list Z) (version : Z) :
  In 0 ids -> chip_ids_scan ids version <> None.
Proof.
  induction ids as [| c rest IH]; cbn [chip_ids_scan In]; [ tauto | ].
  intros [Hc | Hrest].
  - subst c. cbn. discriminate.
  - destruct (c =? 0); [ discriminate | ].
    destruct (c =? version); [ discriminate | auto ].
Qed.

Lemma supported_chip_In (version : Z) :
  supported_chip version = true <-> In version SupportedChipIds.
Proof.
  unfold supported_chip. rewrite existsb_exists. split.
  - intros (c & Hin & Heq). apply Z.eqb_eq in Heq. subst c. exact Hin.
  - intros Hin. exists version. split; [ exact Hin | apply Z.eqb_refl ].
Qed.

Lemma chip_id_check_spec (version : Z) (w : world) :
  chip_id_check version w =
    if supported_chip version
    then (Ret tt, w)
    else (Halt (Exit 1 UnsupportedChipId), w).
Proof.
  unfold chip_id_check.
  pose proof (chip_ids_scan_accepts SUPPORTED_CHIP_IDS version) as Hacc.
  pose proof (chip_ids_scan_total SUPPORTED_CHIP_IDS version) as Htot.
  fold SupportedChipIds in Hacc. rewrite <- supported_chip_In in Hacc.
  destruct (chip_ids_scan SUPPORTED_CHIP_IDS version) as [c |].
  - destruct (Z.eqb_spec c 0) as [Hzero | Hnonzero].
    + destruct (supported_chip version); [ | reflexivity ].
      destruct Hacc as [_ Hacc]. destruct (Hacc eq_refl) as (c' & Hc' & Hnz).
      congruence.
    + destruct Hacc as [Hacc _]. rewrite Hacc; [ reflexivity | ].
      exists c. auto.
  - exfalso. apply Htot; [ | reflexivity ]. cbn. tauto.
Qed.

(** C9.  The membership test accepts exactly 0x0410, 0x0414, 0x0413 and
    0x0440; every other value, and 0 in particular, the value that ends
    the table, leaves the process with "Unsupported chip ID". *)
Theorem chip_id_check_accepts_exactly (version : Z) (w : world) :
  (chip_id_check version w = (Ret tt, w)
   <-> version = 0x0410 \/ version = 0x0414 \/ version = 0x0413 \/ version = 0x0440)
  /\ (chip_id_check version w = (Ret tt, w)
      \/ chip_id_check version w = (Halt (Exit 1 UnsupportedChipId), w))
  /\ chip_id_check 0 w = (Halt (Exit 1 UnsupportedChipId), w)
  /\ SupportedChipIds = [0x0410; 0x0414; 0x0413; 0x0440].
Proof.
  rewrite chip_id_check_spec.
  pose proof (supported_chip_In version) as Hin.
  change SupportedChipIds with [0x0410; 0x0414; 0x0413; 0x0440] in Hin.
  cbn [In] in Hin.
  repeat split.
  - destruct (supported_chip version); [ intros _ | discriminate ].
    destruct Hin as [Hin _]. specialize (Hin eq_refl). intuition auto.
  - intros Hv. destruct (supported_chip version); [ reflexivity | ].
    destruct Hin as [_ Hin]. assert (false = true) by (apply Hin; intuition auto).
    discriminate.
  - destruct (supported_chip version); auto.
Qed.

(** ** The compatibility gates of the session *)

Lemma u8_small (x : Z) : 0 <= x < 256 -> u8 x = x.
Proof. intros H. unfold u8. apply Z.mod_small. exact H. Qed.

Lemma u16_small (x : Z) : 0 <= x < 65536 -> u16 x = x.
Proof. intros H. unfold u16. apply Z.mod_small. exact H. Qed.

(** C5.  In a session that has connected, a bootloader that reports
    [(major, minor)] lets the session go on to the chip ID step iff
    [major * 256 + minor >= BL_MINVERSION] (513, version 2.1); otherwise
    the process ends with "Unsupported bootloader version". *)
Theorem main_version_gate (dev : device) (fs : filesystem) (pp pp' : ProgParam)
    (w w1 w2 : world) (major minor : Z) :
  check_parameters fs pp w = (Ret pp', w1) ->
  connect_loop dev CONNECT_FUEL (port pp') (baudrate pp') w1 = (Ret tt, w2) ->
  dev_get_version dev = Some (major, minor) ->
  0 <= major < 256 ->
  0 <= minor < 256 ->
  BL_MINVERSION = 2 * 256 + 1 /\
  main dev fs pp w =
    if major * 256 + minor >=? BL_MINVERSION
    then (get_chip_id_step dev ;; flash_step dev pp' major ;; go_step dev pp' ;; ret 0)
           (log (EvGetVersion (Some (major, minor))) w2)
    else (Halt (Exit 1 UnsupportedVersion),
          log (EvGetVersion (Some (major, minor))) w2).
Proof.
  intros Hcheck Hconnect Hversion Hmajor Hminor.
  split; [ reflexivity | ].
  unfold main. unfold bind at 1. rewrite Hcheck.
  unfold bind at 1. rewrite Hconnect.
  unfold bind at 1. unfold get_version_step, stm32_get_version.
  unfold bind at 1. unfold bind at 1. unfold emit at 1.
  rewrite Hversion, (u8_small major), (u8_small minor) by assumption.
  unfold ret at 1. unfold bind at 1. unfold version_check, BL_MKVER at 1.
  rewrite Z.geb_leb.
  destruct (Z.ltb_spec (major * 256 + minor) BL_MINVERSION) as [Hlt | Hge];
    destruct (Z.leb_spec BL_MINVERSION (major * 256 + minor)) as [Hle | Hgt];
    try lia; reflexivity.
Qed.

Lemma main_version_gate_witness :
  BL_MINVERSION = 2 * 256 + 1 /\
  main (sample_device 0 (Some (2, 0)) (Some 0x0410)) (sample_fs 512)
      (sample_param "flash.bin" 1 0) initial_world =
    (Halt (Exit 1 UnsupportedVersion),
     append_trace
       [EvInit "/dev/cu.usbmodem" 9600 STM32_OK; EvGetVersion (Some (2, 0))]
       (set_init_calls 1 initial_world)).
Proof.
  exact (main_version_gate (sample_device 0 (Some (2, 0)) (Some 0x0410))
           (sample_fs 512) (sample_param "flash.bin" 1 0)
           (sample_param "flash.bin" 1 0)
           initial_world initial_world
           (append_trace [EvInit "/dev/cu.usbmodem" 9600 STM32_OK]
              (set_init_calls 1 initial_world))
           2 0 eq_refl eq_refl eq_refl ltac:(lia) ltac:(lia)).
Defined.

(** C4.  In a session that has connected and passed the version gate, a
    device that reports the 16-bit chip ID [v] lets the session go on iff
    [v] is one of [SupportedChipIds]; for every other value the process
    ends with "Unsupported chip ID". *)
Theorem main_chip_id_gate (dev : device) (fs : filesystem) (pp pp' : ProgParam)
    (w w1 w2 w3 : world) (ver : Z * Z) (v : Z) :
  check_parameters fs pp w = (Ret pp', w1) ->
  connect_loop dev CONNECT_FUEL (port pp') (baudrate pp') w1 = (Ret tt, w2) ->
  get_version_step dev w2 = (Ret ver, w3) ->
  dev_get_chip_id dev = Some v ->
  0 <= v < 65536 ->
  (supported_chip v = true <-> In v SupportedChipIds) /\
  main dev fs pp w =
    if supported_chip v
    then (flash_step dev pp' (fst ver) ;; go_step dev pp' ;; ret 0)
           (log (EvGetChipId (Some v)) w3)
    else (Halt (Exit 1 UnsupportedChipId), log (EvGetChipId (Some v)) w3).
Proof.
  intros Hcheck Hconnect Hversion Hchip Hv.
  split; [ apply supported_chip_In | ].
  unfold main. unfold bind at 1. rewrite Hcheck.
  unfold bind at 1. rewrite Hconnect.
  unfold bind at 1. rewrite Hversion.
  unfold bind at 1. unfold get_chip_id_step, stm32_get_chip_id.
  unfold bind at 1. unfold bind at 1. unfold emit at 1.
  rewrite Hchip, (u16_small v) by assumption.
  unfold ret at 1. rewrite chip_id_check_spec.
  destruct (supported_chip v); reflexivity.
Qed.

Lemma main_chip_id_gate_witness :
  (supported_chip 0x0414 = true <-> In 0x0414 SupportedChipIds) /\
  main (sample_device 0 (Some (2, 1)) (Some 0x0414)) (sample_fs 512)
      (sample_param "flash.bin" 1 1) initial_world =
    (Ret 0,
     append_trace
       [EvInit "/dev/cu.usbmodem" 9600 STM32_OK; EvGetVersion (Some (2, 1));
        EvGetChipId (Some 0x0414); EvGo STM32_OK]
       (set_init_calls 1 initial_world)).
Proof.
  exact (main_chip_id_gate (sample_device 0 (Some (2, 1)) (Some 0x0414))
           (sample_fs 512) (sample_param "flash.bin" 1 1)
           (sample_param "flash.bin" 1 1)
           initial_world initial_world
           (append_trace [EvInit "/dev/cu.usbmodem" 9600 STM32_OK]
              (set_init_calls 1 initial_world))
           (append_trace
              [EvInit "/dev/cu.usbmodem" 9600 STM32_OK; EvGetVersion (Some (2, 1))]
              (set_init_calls 1 initial_world))
           (2, 1) 0x0414 eq_refl eq_refl eq_refl eq_refl ltac:(lia)).
Defined.

(** ** Invariants of the two loops *)

(** Symbolic execution of straight-line steps. *)
Ltac exec :=
  cbv [check_parameters fopen measure_file fclose
       get_version_step stm32_get_version version_check
       get_chip_id_step stm32_get_chip_id
       erase_step stm32_extended_erase_flash stm32_erase_flash
       stm32_write_unprotect go_step stm32_go_command
       stm32_init write_memory writeh_read_data writeh_progress
       bind ret exit fault out_of_fuel emit get modify];
  fields.

Ltac split_cases :=
  repeat (match goal with
          | |- context [match ?x with _ => _ end] =>
              lazymatch x with
              | context [match _ with _ => _ end] => fail
              | _ => destruct x eqn:?
              end
          end; cbv beta iota; fields).

Section LoopInvariants.

Variable dev : device.
Variable I : world -> Prop.

Hypothesis I_set_fp : forall w v, I w -> I (set_fp v w).
Hypothesis I_set_expected_next : forall w v, I w -> I (set_expected_next v w).
Hypothesis I_set_timeout : forall w v, I w -> I (set_timeout v w).
Hypothesis I_set_init_calls : forall w v, I w -> I (set_init_calls v w).
Hypothesis I_set_write_calls : forall w v, I w -> I (set_write_calls v w).

(** The connect loop keeps what the events of connecting keep; it
    returns after an acknowledged attempt only, and it ends the process
    with "Unable to connect to bootloader" only. *)
Lemma connect_loop_inv (port : string) (baud : Z) :
  (forall w e, I w -> is_connect_event e = true -> I (log e w)) ->
  forall fuel,
    hoare I (connect_loop dev fuel port baud)
      (fun _ w => I w /\ handshake_done (trace w))
      (fun h w => I w /\ (h = Exit 1 UnableToConnect \/ h = OutOfFuel)).
Proof.
  intros Hlog. induction fuel as [| fuel IH]; intros w Hw.
  - cbn. auto.
  - cbn [connect_loop]. exec.
    destruct (dev_init dev (init_calls w)); cbn [is_ok]; fields.
    + split.
      * apply Hlog; [ apply I_set_init_calls; exact Hw | reflexivity ].
      * exists port, baud. apply in_or_app. right. left. reflexivity.
    + set (w' := log (EvSleep 1) _).
      assert (Hw' : I w').
      { subst w'. repeat (apply Hlog; [ | reflexivity ]).
        apply I_set_timeout. apply Hlog; [ | reflexivity ].
        apply I_set_init_calls. exact Hw. }
      destruct (s32 (timeout w + 1) >? 60).
      * auto.
      * apply (IH w' Hw').
Qed.

Lemma writeh_read_data_inv (len : Z) :
  hoare I (writeh_read_data len) (fun _ w => I w)
    (fun h w => I w /\ (h = Fault \/ h = OutOfFuel)).
Proof.
  intros w Hw. exec. destruct (fp w) as [f |]; [ | auto ].
  destruct (f_eof f); cbn [negb]; [ exact Hw | ].
  destruct (fread len f) as [got f']. apply I_set_fp. exact Hw.
Qed.

Lemma writeh_progress_inv (wrote : Z) :
  (forall w e, I w -> is_block_event e = true -> I (log e w)) ->
  hoare I (writeh_progress wrote) (fun _ w => I w)
    (fun h w => I w /\ (h = Fault \/ h = OutOfFuel)).
Proof.
  intros Hlog w Hw. exec. split_cases; auto.
Qed.

(** The transfer loop keeps what write-memory commands and progress
    reports keep; it never ends the process itself. *)
Lemma write_loop_inv :
  (forall w e, I w -> is_block_event e = true -> I (log e w)) ->
  forall fuel address wrote,
    hoare I (write_loop dev fuel writeh_read_data writeh_progress address wrote)
      (fun _ w => I w)
      (fun h w => I w /\ (h = Fault \/ h = OutOfFuel)).
Proof.
  intros Hlog. induction fuel as [| fuel IH]; intros address wrote.
  - intros w Hw. cbn. auto.
  - cbn [write_loop].
    eapply hoare_bind; [ apply writeh_read_data_inv | ]. intros chunk.
    destruct (Z.of_nat (List.length chunk) =? 0); [ intros w Hw; exact Hw | ].
    eapply hoare_bind with (Q := fun _ w => I w).
    + intros w Hw. exec. apply Hlog; [ | reflexivity ].
      apply I_set_write_calls. exact Hw.
    + intros r. destruct (is_ok r); [ | intros w Hw; exact Hw ].
      eapply hoare_bind; [ apply writeh_progress_inv; exact Hlog | ].
      intros u. apply IH.
Qed.

(** The programming step keeps what the call of [stm32_write_flash],
    its blocks and [fclose] keep. *)
Lemma program_step_inv :
  (forall w e, I w -> is_block_event e = true -> I (log e w)) ->
  (forall w, I w -> I (log EvWriteFlash w)) ->
  (forall w, I w -> I (log EvFclose w)) ->
  hoare I (program_step dev) (fun _ w => I w)
    (fun h w => I w /\ (h = Exit 1 UnableToProgram \/ h = Fault \/ h = OutOfFuel)).
Proof.
  intros Hblock Hcall Hclose. unfold program_step.
  eapply hoare_bind with (Q := fun _ w => I w); [ intros w Hw; exact Hw | ].
  intros n.
  eapply hoare_bind with (Q := fun _ w => I w).
  - unfold stm32_write_flash.
    eapply hoare_bind with (Q := fun _ w => I w);
      [ intros w Hw; apply Hcall; exact Hw | ].
    intros u. eapply hoare_weaken; [ apply write_loop_inv; exact Hblock | auto .. ].
    intros h w [Hw [Hh | Hh]]; auto.
  - intros r w Hw. exec. destruct (is_ok r); [ | auto ].
    destruct (fp w); auto.
Qed.

End LoopInvariants.

(** ** Sessions: reasoning step by step *)

(** The steps of [main], one triple each. *)
Lemma main_hoare (dev : device) (fs : filesystem) (pp : ProgParam)
    (P0 : world -> Prop) (P1 P2 : ProgParam -> world -> Prop)
    (P3 P4 P5 : ProgParam -> Z * Z -> world -> Prop)
    (Q : world -> Prop) (E : halt -> world -> Prop) :
  hoare P0 (check_parameters fs pp) P1 E ->
  (forall pp', hoare (P1 pp')
                 (connect_loop dev CONNECT_FUEL (port pp') (baudrate pp'))
                 (fun _ => P2 pp') E) ->
  (forall pp', hoare (P2 pp') (get_version_step dev) (P3 pp') E) ->
  (forall pp' v, hoare (P3 pp' v) (get_chip_id_step dev) (fun _ => P4 pp' v) E) ->
  (forall pp' v, hoare (P4 pp' v) (flash_step dev pp' (fst v)) (fun _ => P5 pp' v) E) ->
  (forall pp' v, hoare (P5 pp' v) (go_step dev pp') (fun _ => Q) E) ->
  hoare P0 (main dev fs pp) (fun _ => Q) E.
Proof.
  intros Hcheck Hconnect Hversion Hchip Hflash Hgo. unfold main.
  eapply hoare_bind; [ exact Hcheck | ]. intros pp'.
  eapply hoare_bind; [ apply Hconnect | ]. intros u.
  eapply hoare_bind; [ apply Hversion | ]. intros v.
  eapply hoare_bind; [ apply Hchip | ]. intros u1.
  eapply hoare_bind; [ apply Hflash | ]. intros u2.
  eapply hoare_bind; [ apply Hgo | ]. intros u3.
  intros w Hw. exact Hw.
Qed.

(** The steps of [flash_step] when programming is not skipped. *)
Lemma flash_step_hoare (dev : device) (pp : ProgParam) (major : Z)
    (P P1 P2 Q : world -> Prop) (E : halt -> world -> Prop) :
  (skip_flash pp <> 0 -> forall w, P w -> Q w) ->
  hoare P (stm32_write_unprotect dev)
    (fun r w => if is_ok r then P1 w else E (Exit 1 UnableToWriteUnprotect) w) E ->
  hoare P1 (erase_step dev major) (fun _ => P2) E ->
  hoare P2 (program_step dev) (fun _ => Q) E ->
  hoare P (flash_step dev pp major) (fun _ => Q) E.
Proof.
  intros Hskip Hunprotect Herase Hprogram. unfold flash_step.
  destruct (Z.eqb_spec (skip_flash pp) 0) as [Hzero | Hnonzero].
  - eapply hoare_bind; [ exact Hunprotect | ]. intros r.
    eapply hoare_bind with (Q := fun _ => P1).
    + intros w Hw. destruct (is_ok r); exact Hw.
    + intros u. eapply hoare_bind; [ exact Herase | ]. intros u1. exact Hprogram.
  - intros w Hw. apply Hskip; assumption.
Qed.

(** From a triple on [main] to its result. *)
Lemma hoare_halt {A} (c : M A) (P : world -> Prop) (Q : A -> world -> Prop)
    (E : halt -> world -> Prop) (w : world) (h : halt) :
  hoare P c Q E -> P w -> fst (c w) = Halt h -> E h (snd (c w)).
Proof.
  intros Hc Hw Hh. specialize (Hc w Hw).
  destruct (c w) as [[a | h'] w']; cbn in *; [ discriminate | ].
  inversion Hh. subst. exact Hc.
Qed.

Lemma hoare_final {A} (c : M A) (P R : world -> Prop) (w : world) :
  hoare P c (fun _ => R) (fun _ => R) -> P w -> R (snd (c w)).
Proof.
  intros Hc Hw. specialize (Hc w Hw).
  destruct (c w) as [[a | h'] w']; exact Hc.
Qed.

(** ** A file of 2^32 bytes *)

Lemma sample_fs_image (size : nat) :
  sample_fs size "flash.bin"%string = Some (repeat Byte.x00 size).
Proof. reflexivity. Qed.

Lemma firstn_repeat {A} (x : A) (k n : nat) :
  (k <= n)%nat -> firstn k (repeat x n) = repeat x k.
Proof.
  revert n. induction k as [| k IH]; intros n Hle; [ reflexivity | ].
  destruct n as [| n]; [ lia | ].
  cbn [repeat firstn]. rewrite IH by lia. reflexivity.
Qed.

(** A session with the sample device on a file whose size is a multiple
    of 2^32 other than 0: it reaches the programming step and ends in the
    progress callback of its first block. *)
Lemma run_wrapped_size (fs : filesystem) (data : list byte) :
  fs "flash.bin"%string = Some data ->
  data <> [] ->
  Z.of_nat (List.length data) mod 4294967296 = 0 ->
  let r := run (sample_device 0 (Some (2, 1)) (Some 0x0410)) fs
             (sample_param "flash.bin" 0 0) in
  fst r = Halt Fault /\
  fpsize (snd r) = 0 /\
  trace (snd r) =
    [EvFopen "flash.bin" true;
     EvInit "/dev/cu.usbmodem" 9600 STM32_OK;
     EvGetVersion (Some (2, 1));
     EvGetChipId (Some 0x0410);
     EvWriteUnprotect STM32_OK;
     EvErase STM32_OK;
     EvWriteFlash;
     EvWriteMemory 0x08000000 (firstn 256 data) STM32_OK].
Proof.
  intros Hfile Hdata Hsize.
  set (dev := sample_device 0 (Some (2, 1)) (Some 0x0410)).
  set (pp := sample_param "flash.bin" 0 0).
  set (t1 := [EvFopen "flash.bin" true]).
  set (t2 := t1 ++ [EvInit "/dev/cu.usbmodem" 9600 STM32_OK]).
  set (t3 := t2 ++ [EvGetVersion (Some (2, 1))]).
  set (t4 := t3 ++ [EvGetChipId (Some 0x0410)]).
  set (t5 := t4 ++ [EvWriteUnprotect STM32_OK]).
  set (t6 := t5 ++ [EvErase STM32_OK]).
  set (t8 := t6 ++ [EvWriteFlash;
                    EvWriteMemory 0x08000000 (firstn 256 data) STM32_OK]).
  assert (Hmain : hoare (fun w => w = initial_world) (main dev fs pp)
                    (fun _ _ => False)
                    (fun h w => h = Fault /\ fpsize w = 0 /\ trace w = t8)).
  { apply main_hoare with
      (P1 := fun pp' w => pp' = pp /\ init_calls w = 0%nat /\ wrapped data t1 w)
      (P2 := fun pp' w => pp' = pp /\ wrapped data t2 w)
      (P3 := fun pp' v w => pp' = pp /\ fst v = 2 /\ wrapped data t3 w)
      (P4 := fun pp' v w => pp' = pp /\ fst v = 2 /\ wrapped data t4 w)
      (P5 := fun _ _ _ => False).
    - intros w ->. exec.
      change (first_char (port pp) =? 0) with false.
      change (skip_flash pp =? 0) with true.
      change ((strlen (file pp) =? 1) && (strncmp (file pp) "0" 1 =? 0)) with false.
      change (file pp) with "flash.bin"%string.
      rewrite Hfile. cbv beta iota. fields.
      unfold fseek_set, fseek_end, ftell, u32. cbn [f_data f_pos].
      change (2 ^ 32) with 4294967296. rewrite Hsize.
      repeat split.
    - intros pp' w (-> & Hinit & Hfp & Hfpsize & Hwrite & Htrace).
      unfold CONNECT_FUEL. rewrite connect_loop_acked by (rewrite Hinit; reflexivity).
      unfold wrapped. fields. rewrite Htrace.
      repeat split; assumption || reflexivity.
    - intros pp' w (-> & Hfp & Hfpsize & Hwrite & Htrace). exec. cbn.
      unfold wrapped. fields. rewrite Htrace.
      repeat split; assumption || reflexivity.
    - intros pp' v w (-> & Hv & Hfp & Hfpsize & Hwrite & Htrace). exec. cbn.
      unfold wrapped. fields. rewrite Htrace.
      repeat split; assumption || reflexivity.
    - intros pp' v w (-> & Hv & Hw). rewrite Hv. revert w Hw.
      apply (flash_step_hoare dev pp 2 (wrapped data t4) (wrapped data t5)
               (wrapped data t6) (fun _ => False)
               (fun h w => h = Fault /\ fpsize w = 0 /\ trace w = t8)).
      + intros Hskip. exfalso. apply Hskip. reflexivity.
      + intros w (Hfp & Hfpsize & Hwrite & Htrace). exec. cbn.
        unfold wrapped. fields. rewrite Htrace.
      repeat split; assumption || reflexivity.
      + intros w (Hfp & Hfpsize & Hwrite & Htrace). exec. cbn.
        unfold wrapped. fields. rewrite Htrace.
      repeat split; assumption || reflexivity.
      + intros w (Hfp & Hfpsize & Hwrite & Htrace).
        destruct (program_step_zero_size_trace dev w _ Hfp eq_refl)
          as (w' & Hstep & Hzero & Hevents).
        * cbn [f_pos f_data]. destruct data; [ contradiction | cbn; lia ].
        * exact Hfpsize.
        * reflexivity.
        * rewrite Hstep, Hevents, Htrace. repeat split. exact Hzero.
    - intros pp' v w []. }
  intros r. pose proof (Hmain initial_world eq_refl) as H. fold (run dev fs pp) in H.
  fold r in H. destruct r as [[a | h] w]; cbn [fst snd] in *; [ contradiction | ].
  destruct H as (-> & Hzero & Htrace). repeat split; assumption.
Qed.

(** C3.  A firmware file of 4294967296 bytes (2^32): the size that line
    123 stores in the 32-bit [fpsize] is 0.  With a bootloader that
    acknowledges everything, programming is no no-op: the first block of
    256 bytes is read and written, and the progress callback, called
    with 256, divides by [fpsize].  The run ends in the division fault,
    the write-memory command of the first block being its last event. *)
Theorem run_wrapped_size_divides_by_zero :
  Z.of_nat (List.length (repeat Byte.x00 (Z.to_nat 4294967296))) = 4294967296 /\
  fst (run (sample_device 0 (Some (2, 1)) (Some 0x0410))
         (sample_fs (Z.to_nat 4294967296))
         (sample_param "flash.bin" 0 0)) = Halt Fault /\
  fpsize (snd (run (sample_device 0 (Some (2, 1)) (Some 0x0410))
                 (sample_fs (Z.to_nat 4294967296))
                 (sample_param "flash.bin" 0 0))) = 0 /\
  trace (snd (run (sample_device 0 (Some (2, 1)) (Some 0x0410))
                (sample_fs (Z.to_nat 4294967296))
                (sample_param "flash.bin" 0 0))) =
    [EvFopen "flash.bin" true;
     EvInit "/dev/cu.usbmodem" 9600 STM32_OK;
     EvGetVersion (Some (2, 1));
     EvGetChipId (Some 0x0410);
     EvWriteUnprotect STM32_OK;
     EvErase STM32_OK;
     EvWriteFlash;
     EvWriteMemory 0x08000000 (repeat Byte.x00 256) STM32_OK].
Proof.
  set (size := Z.to_nat 4294967296).
  assert (Hsize : Z.of_nat size = 4294967296) by (apply Z2Nat.id; lia).
  clearbody size.
  assert (Hlen : Z.of_nat (List.length (repeat Byte.x00 size)) = 4294967296).
  { rewrite repeat_length. exact Hsize. }
  split; [ exact Hlen | ].
  rewrite <- (firstn_repeat Byte.x00 256 size) by lia.
  apply (run_wrapped_size (sample_fs size) (repeat Byte.x00 size)).
  - apply sample_fs_image.
  - intros Hnil. rewrite Hnil in Hlen. discriminate Hlen.
  - rewrite Hlen. reflexivity.
Qed.

(** C10.  Whatever the arguments, the files and the device, the process
    never ends with "No bin file selected": the test that guards this
    message (line 103) repeats the test of line 95 on [port], which has
    ended the process already when it holds. *)
Theorem main_never_reports_missing_file (dev : device) (fs : filesystem)
    (pp : ProgParam) (w : world) (code : Z) :
  fst (main dev fs pp w) <> Halt (Exit code NoBinFileSelected).
Proof.
  intros Hhalt.
  assert (Hmain : hoare (fun _ => True) (main dev fs pp) (fun _ _ => True)
                    (fun h _ => forall c, h <> Exit c NoBinFileSelected)).
  { apply main_hoare with (P1 := fun _ _ => True) (P2 := fun _ _ => True)
      (P3 := fun _ _ _ => True) (P4 := fun _ _ _ => True) (P5 := fun _ _ _ => True).
    - intros w0 _. exec. split_cases; auto; intros; discriminate.
    - intros pp'. eapply hoare_weaken;
        [ apply (connect_loop_inv dev (fun _ => True)); auto | auto .. ].
      intros h w0 [_ [-> | ->]] c; discriminate.
    - intros pp' w0 _. exec. split_cases; auto; intros; discriminate.
    - intros pp' v w0 _. exec.
      destruct (dev_get_chip_id dev); [ rewrite chip_id_check_spec | ];
        split_cases; auto; intros; discriminate.
    - intros pp' v. apply flash_step_hoare with (P1 := fun _ => True) (P2 := fun _ => True).
      + auto.
      + intros w0 _. exec. split_cases; cbn; auto; intros; discriminate.
      + intros w0 _. exec. split_cases; auto; intros; discriminate.
      + eapply hoare_weaken;
          [ apply (program_step_inv dev (fun _ => True)); auto | auto .. ].
        intros h w0 [_ [-> | [-> | ->]]] c; discriminate.
    - intros pp' v w0 _. exec. split_cases; auto; intros; discriminate. }
  apply (hoare_halt _ _ _ _ w _ Hmain I Hhalt code). reflexivity.
Qed.

(** ** Termination: the fuel is enough *)

Lemma connect_loop_total (dev : device) (port : string) (baud : Z) :
  forall fuel,
    hoare (fun w => 0 <= timeout w <= 60 /\ (Z.to_nat (61 - timeout w) < fuel)%nat)
      (connect_loop dev fuel port baud)
      (fun _ _ => True)
      (fun h _ => h <> OutOfFuel).
Proof.
  induction fuel as [| fuel IH]; intros w [Ht Hfuel]; [ lia | ].
  cbn [connect_loop]. exec.
  destruct (dev_init dev (init_calls w)); cbn [is_ok]; fields; [ exact I | ].
  rewrite s32_small by lia.
  destruct (Z.gtb_spec (timeout w + 1) 60) as [Hgt | Hle]; [ discriminate | ].
  apply IH. fields. lia.
Qed.

Lemma writeh_read_data_left (len : Z) (n : nat) :
  0 < len ->
  hoare (fun w => (bytes_left w <= n)%nat)
    (writeh_read_data len)
    (fun chunk w => chunk = [] \/ (bytes_left w < n)%nat)
    (fun h _ => h <> OutOfFuel).
Proof.
  intros Hlen w Hleft. exec. unfold bytes_left in Hleft.
  destruct (fp w) as [f |]; [ | discriminate ].
  destruct (f_eof f); cbn [negb]; [ left; reflexivity | ].
  unfold fread. fields. unfold bytes_left. fields.
  set (got := firstn (Z.to_nat len) (skipn (f_pos f) (f_data f))).
  destruct got as [| b got'] eqn:Hgot; [ left; reflexivity | right ].
  cbn [f_data f_pos].
  assert (Hrest : (List.length got <= List.length (f_data f) - f_pos f)%nat).
  { subst got. rewrite length_firstn, length_skipn. lia. }
  rewrite Hgot in Hrest. cbn [List.length] in *. lia.
Qed.

Lemma write_loop_total (dev : device) :
  forall fuel address wrote,
    hoare (fun w => (bytes_left w < fuel)%nat)
      (write_loop dev fuel writeh_read_data writeh_progress address wrote)
      (fun _ _ => True)
      (fun h _ => h <> OutOfFuel).
Proof.
  induction fuel as [| fuel IH]; intros address wrote; [ intros w Hw; lia | ].
  cbn [write_loop].
  eapply hoare_bind
    with (Q := fun chunk w => chunk = [] \/ (bytes_left w < fuel)%nat).
  { eapply hoare_weaken; [ apply (writeh_read_data_left _ fuel); reflexivity | | auto .. ].
    intros w Hw. cbv beta in *. lia. }
  intros chunk. cbv beta.
  destruct (Z.eqb_spec (Z.of_nat (List.length chunk)) 0) as [Hzero | Hnonzero];
    [ intros w Hw; exact I | ].
  eapply hoare_bind with (Q := fun _ w => (bytes_left w < fuel)%nat).
  - intros w [Hnil | Hlt]; [ subst chunk; cbn in Hnonzero; lia | ].
    exec. exact Hlt.
  - intros r. destruct (is_ok r); [ | intros w Hw; exact I ].
    eapply hoare_bind with (Q := fun _ w => (bytes_left w < fuel)%nat).
    + intros w Hlt. exec. split_cases; try discriminate; exact Hlt.
    + intros u. apply IH.
Qed.

(** The model of [main] never runs out of fuel: what it returns is
    what the program does. *)
Lemma main_total (dev : device) (fs : filesystem) (pp : ProgParam) :
  fst (run dev fs pp) <> Halt OutOfFuel.
Proof.
  intros Hhalt.
  assert (Hmain : hoare (fun w => timeout w = 0) (main dev fs pp) (fun _ _ => True)
                    (fun h _ => h <> OutOfFuel)).
  { apply main_hoare with (P1 := fun _ w => timeout w = 0) (P2 := fun _ _ => True)
      (P3 := fun _ _ _ => True) (P4 := fun _ _ _ => True) (P5 := fun _ _ _ => True).
    - intros w0 Ht. exec. split_cases; auto; discriminate.
    - intros pp'. eapply hoare_weaken; [ apply connect_loop_total | | auto .. ].
      intros w0 Ht. cbv beta. rewrite Ht. unfold CONNECT_FUEL. cbn. lia.
    - intros pp' w0 _. exec. split_cases; auto; discriminate.
    - intros pp' v w0 _. exec.
      destruct (dev_get_chip_id dev); [ rewrite chip_id_check_spec | ];
        split_cases; auto; discriminate.
    - intros pp' v. apply flash_step_hoare with (P1 := fun _ => True) (P2 := fun _ => True).
      + auto.
      + intros w0 _. exec. split_cases; cbn; auto; discriminate.
      + intros w0 _. exec. split_cases; auto; discriminate.
      + unfold program_step.
        eapply hoare_bind with (Q := fun n w => bytes_left w = n);
          [ intros w0 _; reflexivity | ].
        intros n. eapply hoare_bind with (Q := fun _ _ => True).
        * unfold stm32_write_flash.
          eapply hoare_bind with (Q := fun _ w => bytes_left w = n);
            [ intros w0 Hn; exact Hn | ].
          intros u. eapply hoare_weaken; [ apply write_loop_total | | auto .. ].
          intros w0 Hn. cbv beta. lia.
        * intros r w0 _. exec. split_cases; auto; discriminate.
    - intros pp' v w0 _. exec. split_cases; auto; discriminate. }
  apply (hoare_halt _ _ _ _ initial_world _ Hmain eq_refl Hhalt). reflexivity.
Qed.

(** ** Skipping the programming *)

(** With the skip flag set, or with the file name "0", [main] is the
    handshake, the two queries and the optional Go command. *)
Lemma main_skipping (dev : device) (fs : filesystem) (pp : ProgParam) (w : world) :
  skip_flash pp <> 0 \/ file pp = "0"%string ->
  main dev fs pp w =
    ((if first_char (port pp) =? 0 then exit 1 NoUartPortSelected else ret tt) ;;
     connect_loop dev CONNECT_FUEL (port pp) (baudrate pp) ;;
     v <- get_version_step dev ;;
     get_chip_id_step dev ;;
     go_step dev pp ;;
     ret 0) w.
Proof.
  intros Hskip. unfold main, check_parameters.
  unfold bind at 1 2. unfold bind at 7.
  destruct (first_char (port pp) =? 0); cbv [exit ret]; [ reflexivity | ].
  destruct (Z.eqb_spec (skip_flash pp) 0) as [Hzero | Hnonzero].
  - destruct Hskip as [Hskip | Hfile]; [ contradiction | ].
    rewrite Hfile. unfold bind at 1.
    change ((strlen "0" =? 1) && (strncmp "0" "0" 1 =? 0)) with true.
    cbv iota. unfold flash_step, go_step. cbn [skip_flash send_go set_skip_flash port baudrate].
    change (1 =? 0) with false. cbv iota.
    unfold bind, ret. split_cases; reflexivity.
  - unfold flash_step. apply Z.eqb_neq in Hnonzero. rewrite Hnonzero.
    unfold bind, ret. split_cases; reflexivity.
Qed.

Lemma Forall_snoc {A} (P : A -> Prop) (l : list A) (a : A) :
  Forall P l -> P a -> Forall P (l ++ [a]).
Proof. intros Hl Ha. apply Forall_app. split; [ exact Hl | constructor; auto ]. Qed.

(** C8.  When the file argument is the string "0", the run is the run
    with the skip flag set: the handshake, the version and chip ID
    queries and the optional Go command; no file is opened and no
    write-unprotect, erase or programming command is issued. *)
Theorem file_zero_skips_programming (dev : device) (fs : filesystem)
    (pp : ProgParam) :
  file pp = "0"%string ->
  run dev fs pp = run dev fs (set_skip_flash 1 pp)
  /\ run dev fs pp =
       ((if first_char (port pp) =? 0 then exit 1 NoUartPortSelected else ret tt) ;;
        connect_loop dev CONNECT_FUEL (port pp) (baudrate pp) ;;
        v <- get_version_step dev ;;
        get_chip_id_step dev ;;
        go_step dev pp ;;
        ret 0) initial_world
  /\ Forall (fun e => is_flashing_event e = false) (trace (snd (run dev fs pp))).
Proof.
  intros Hfile. unfold run.
  rewrite (main_skipping dev fs pp) by (right; exact Hfile).
  rewrite (main_skipping dev fs (set_skip_flash 1 pp)) by (left; discriminate).
  split; [ reflexivity | split; [ reflexivity | ] ].
  rewrite <- (main_skipping dev fs pp) by (right; exact Hfile).
  set (quiet := fun w => Forall (fun e => is_flashing_event e = false) (trace w)).
  apply (hoare_final (main dev fs pp) quiet quiet); [ | constructor ].
  apply main_hoare with
    (P1 := fun pp' w => quiet w /\ skip_flash pp' <> 0)
    (P2 := fun pp' w => quiet w /\ skip_flash pp' <> 0)
    (P3 := fun pp' _ w => quiet w /\ skip_flash pp' <> 0)
    (P4 := fun pp' _ w => quiet w /\ skip_flash pp' <> 0)
    (P5 := fun _ _ w => quiet w).
  - intros w Hw. exec. rewrite Hfile.
    change ((strlen "0" =? 1) && (strncmp "0" "0" 1 =? 0)) with true.
    split_cases; auto; (split; [ exact Hw | ]).
    + cbn [skip_flash set_skip_flash]. lia.
    + apply Z.eqb_neq. assumption.
  - intros pp'. eapply hoare_weaken;
      [ apply (connect_loop_inv dev (fun w => quiet w /\ skip_flash pp' <> 0)) | .. ];
      subst quiet; cbv beta; fields; try tauto.
    intros w e [Hw Hs] He. split; [ | exact Hs ]. fields.
    apply Forall_snoc; [ exact Hw | ]. destruct e; try discriminate; reflexivity.
  - intros pp' w [Hw Hs]. subst quiet. exec. split_cases; fields;
      repeat split; try assumption; apply Forall_snoc; auto.
  - intros pp' v w [Hw Hs]. subst quiet. exec.
    destruct (dev_get_chip_id dev); [ rewrite chip_id_check_spec | ];
      split_cases; fields; repeat split; try assumption; apply Forall_snoc; auto.
  - intros pp' v w [Hw Hs]. unfold flash_step.
    destruct (Z.eqb_spec (skip_flash pp') 0); [ contradiction | exact Hw ].
  - intros pp' v w Hw. subst quiet. exec. split_cases; fields;
      try assumption; apply Forall_snoc; auto.
Qed.

Lemma file_zero_skips_programming_witness :
  trace (snd (run (sample_device 1 (Some (3, 0)) (Some 0x0440)) (sample_fs 512)
                (sample_param "0" 0 1)))
  = [EvInit "/dev/cu.usbmodem" 9600 STM32_NOT_OK; EvRetry 1; EvSleep 1;
     EvInit "/dev/cu.usbmodem" 9600 STM32_OK; EvGetVersion (Some (3, 0));
     EvGetChipId (Some 0x0440); EvGo STM32_OK]
  /\ Forall (fun e => is_flashing_event e = false)
       (trace (snd (run (sample_device 1 (Some (3, 0)) (Some 0x0440)) (sample_fs 512)
                      (sample_param "0" 0 1)))).
Proof.
  split; [ reflexivity | ].
  apply (file_zero_skips_programming (sample_device 1 (Some (3, 0)) (Some 0x0440))
           (sample_fs 512) (sample_param "0" 0 1) eq_refl).
Defined.

(** ** The order of the commands *)

Lemma ordered_nil : ordered [].
Proof. intros pre e post H. destruct pre; discriminate. Qed.

Lemma ordered_snoc (tr : list event) (e : event) :
  ordered tr -> guard e tr -> ordered (tr ++ [e]).
Proof.
  intros Htr He pre e' post Hsplit.
  destruct (exists_last (l := e' :: post) ltac:(discriminate)) as (post' & x & Hlast).
  destruct post' as [| y post'].
  - cbn in Hlast. inversion Hlast; subst.
    apply app_inj_tail in Hsplit. destruct Hsplit as [-> ->]. exact He.
  - cbn in Hlast. inversion Hlast; subst.
    change (pre ++ y :: post' ++ [x]) with (pre ++ (y :: post') ++ [x]) in Hsplit.
    rewrite app_assoc in Hsplit. apply app_inj_tail in Hsplit.
    destruct Hsplit as [Htr' _]. apply (Htr pre y post'). exact Htr'.
Qed.

Lemma level_fact_app (n : nat) (tr l : list event) :
  level_fact n tr -> level_fact n (tr ++ l).
Proof.
  destruct n as [| [| [| [| [| n]]]]]; cbn; auto.
  - intros (p & b & H). exists p, b. apply in_or_app. auto.
  - intros (ma & mi & H). exists ma, mi. apply in_or_app. auto.
  - intros (v & H & Hv). exists v. split; [ apply in_or_app; auto | exact Hv ].
  - intros [H | H]; [ left | right ]; apply in_or_app; auto.
Qed.

Lemma stage_level (n k : nat) (w : world) :
  stage n w -> (1 <= k <= n)%nat -> level_fact k (trace w).
Proof.
  intros (_ & H1 & H2 & H3 & H4) Hk.
  destruct k as [| [| [| [| [| k]]]]]; cbn; auto; [ apply H1 | apply H2 | apply H3 | apply H4 ]; lia.
Qed.

Ltac stage_split :=
  unfold stage; split; [ | split; [ | split; [ | split ] ] ].

Lemma stage_weaken (n m : nat) (w : world) :
  (m <= n)%nat -> stage n w -> stage m w.
Proof.
  intros Hle (Hord & H1 & H2 & H3 & H4).
  stage_split; auto; intros; [ apply H1 | apply H2 | apply H3 | apply H4 ]; lia.
Qed.

Lemma stage_raise (n : nat) (w : world) :
  stage n w -> level_fact (S n) (trace w) -> stage (S n) w.
Proof.
  intros (Hord & H1 & H2 & H3 & H4) Hnew.
  stage_split; auto; intros Hle.
  - destruct n as [| n]; [ exact Hnew | apply H1; lia ].
  - destruct n as [| [| n]]; [ lia | exact Hnew | apply H2; lia ].
  - destruct n as [| [| [| n]]]; [ lia | lia | exact Hnew | apply H3; lia ].
  - destruct n as [| [| [| [| n]]]]; [ lia | lia | lia | exact Hnew | apply H4; lia ].
Qed.

(** At the level an event requires, its guard holds. *)
Lemma stage_guard (n : nat) (w : world) (e : event) :
  stage n w -> (required_level e <= n)%nat -> guard e (trace w).
Proof.
  intros Hstage Hlevel.
  pose proof (fun k => stage_level n k w Hstage) as Hfact.
  unfold guard.
  destruct e; cbn in Hlevel |- *; repeat split; intros; try discriminate;
    first [ apply (Hfact 1%nat) | apply (Hfact 2%nat)
          | apply (Hfact 3%nat) | apply (Hfact 4%nat) ]; lia.
Qed.

Lemma stage_log (n : nat) (w : world) (e : event) :
  stage n w -> (required_level e <= n)%nat -> stage n (log e w).
Proof.
  intros Hstage Hlevel.
  pose proof (stage_guard n w e Hstage Hlevel) as Hguard.
  destruct Hstage as (Hord & H1 & H2 & H3 & H4).
  stage_split; fields; [ apply ordered_snoc; assumption | .. ]; intros Hle.
  - apply (level_fact_app 1). exact (H1 Hle).
  - apply (level_fact_app 2). exact (H2 Hle).
  - apply (level_fact_app 3). exact (H3 Hle).
  - apply (level_fact_app 4). exact (H4 Hle).
Qed.

(** Logging an event that brings the fact of the next level. *)
Lemma stage_log_raise (n : nat) (w : world) (e : event) :
  stage n w -> (required_level e <= n)%nat ->
  level_fact (S n) [e] -> stage (S n) (log e w).
Proof.
  intros Hstage Hlevel Hnew. apply stage_raise.
  - apply stage_log; assumption.
  - fields. destruct n as [| [| [| [| n]]]]; cbn in Hnew |- *; auto.
    + destruct Hnew as (p & b & [H | []]). exists p, b. apply in_or_app. right. left. exact H.
    + destruct Hnew as (ma & mi & [H | []]). exists ma, mi. apply in_or_app. right. left. exact H.
    + destruct Hnew as (v & [H | []] & Hv). exists v. split; [ | exact Hv ].
      apply in_or_app. right. left. exact H.
    + destruct Hnew as [[H | []] | [H | []]]; [ left | right ];
        apply in_or_app; right; left; exact H.
Qed.

Lemma stage_same_trace (n : nat) (w w' : world) :
  trace w' = trace w -> stage n w -> stage n w'.
Proof. intros Htrace H. unfold stage in *. rewrite Htrace. exact H. Qed.

Ltac stage_tac :=
  repeat first
    [ assumption
    | match goal with
      | |- stage _ (log _ _) => apply stage_log; [ | cbn; lia ]
      | |- stage ?n (_ _ ?w) => apply (stage_same_trace n w); [ reflexivity | ]
      end ].

Lemma stage_initial : stage 0 initial_world.
Proof. stage_split; [ exact ordered_nil | intros; lia .. ]. Qed.

(** Every state a session passes through is at a stage: the trace is
    ordered when [main] is left, whichever way. *)
Lemma main_stage (dev : device) (fs : filesystem) (pp : ProgParam) :
  hoare (stage 0) (main dev fs pp) (fun _ => stage 0) (fun _ => stage 0).
Proof.
  apply main_hoare with
    (P1 := fun _ => stage 0) (P2 := fun _ => stage 1) (P3 := fun _ _ => stage 2)
    (P4 := fun _ _ => stage 3) (P5 := fun _ _ => stage 3).
  - intros w Hw. exec. split_cases; stage_tac.
  - intros pp'. eapply hoare_weaken;
      [ apply (connect_loop_inv dev (stage 0)); try (intros w v H; exact H) | auto .. ].
    + intros w e Hw He. apply stage_log; [ exact Hw | ].
      destruct e; try discriminate; cbn; lia.
    + intros u w [Hw Hdone]. apply stage_raise; assumption.
    + intros h w [Hw _]. exact Hw.
  - intros pp' w Hw. exec.
    destruct (dev_get_version dev) as [[major minor] |]; cbv beta iota; fields.
    + assert (H2 : stage 2 (log (EvGetVersion (Some (u8 major, u8 minor))) w)).
      { apply stage_log_raise; [ exact Hw | cbn; lia | ].
        exists (u8 major), (u8 minor). left. reflexivity. }
      split_cases; [ apply (stage_weaken 2); [ lia | exact H2 ] | exact H2 ].
    + apply (stage_weaken 1); [ lia | ]. stage_tac.
  - intros pp' v w Hw. exec.
    destruct (dev_get_chip_id dev) as [version |]; cbv beta iota; fields.
    + rewrite chip_id_check_spec.
      destruct (supported_chip (u16 version)) eqn:Hsupported.
      * apply stage_log_raise; [ exact Hw | cbn; lia | ].
        exists (u16 version). split; [ left; reflexivity | ].
        apply supported_chip_In. exact Hsupported.
      * apply (stage_weaken 2); [ lia | ]. stage_tac.
    + apply (stage_weaken 2); [ lia | ]. stage_tac.
  - intros pp' v.
    apply flash_step_hoare with (P1 := stage 3) (P2 := stage 4).
    + auto.
    + intros w Hw. exec.
      destruct (dev_write_unprotect dev); cbn [is_ok];
        [ | apply (stage_weaken 3); [ lia | ] ]; stage_tac.
    + intros w Hw. exec.
      destruct (fst v =? 3);
        [ destruct (dev_extended_erase dev) | destruct (dev_erase dev) ];
        cbn [is_ok]; cbv beta iota; fields;
        first [ apply stage_log_raise; [ exact Hw | cbn; lia | cbv; auto ]
              | apply (stage_weaken 3); [ lia | stage_tac ] ].
    + eapply hoare_weaken;
        [ apply (program_step_inv dev (stage 4)); try (intros w u H; exact H) | auto .. ].
      * intros w e Hw He. apply stage_log; [ exact Hw | ].
        destruct e; try discriminate; cbn; lia.
      * intros w Hw. stage_tac.
      * intros w Hw. stage_tac.
      * intros u w Hw. apply (stage_weaken 4); [ lia | exact Hw ].
      * intros h w [Hw _]. apply (stage_weaken 4); [ lia | exact Hw ].
  - intros pp' v w Hw. exec.
    split_cases; apply (stage_weaken 3); try lia; stage_tac.
Qed.

(** C7.  In every run, whatever event [e] of the trace one looks at and
    whatever came before it ([pre]): a bootloader command comes after an
    acknowledged sync; an erase, programming or Go command comes after an
    acknowledged sync, a version report and the report of a chip ID that
    is in [SupportedChipIds]; a programming command ([stm32_write_flash]
    and its write-memory commands) comes after an erase command that
    returned [STM32_OK]. *)
Theorem session_order (dev : device) (fs : filesystem) (pp : ProgParam)
    (pre : list event) (e : event) (post : list event) :
  trace (snd (run dev fs pp)) = pre ++ e :: post ->
  (is_command e = true -> handshake_done pre)
  /\ (is_erase_command e || is_program_command e || is_go_command e = true ->
      handshake_done pre /\ version_obtained pre /\ chip_id_accepted pre)
  /\ (is_program_command e = true -> erase_succeeded pre).
Proof.
  intros Hsplit.
  pose proof (hoare_final (main dev fs pp) (stage 0) (stage 0) initial_world
                (main_stage dev fs pp) stage_initial) as (Hordered & _).
  exact (Hordered pre e post Hsplit).
Qed.

Lemma session_order_witness :
  handshake_done
    [EvFopen "flash.bin" true; EvInit "/dev/cu.usbmodem" 9600 STM32_OK;
     EvGetVersion (Some (2, 1)); EvGetChipId (Some 0x0410);
     EvWriteUnprotect STM32_OK; EvErase STM32_OK]
  /\ erase_succeeded
    [EvFopen "flash.bin" true; EvInit "/dev/cu.usbmodem" 9600 STM32_OK;
     EvGetVersion (Some (2, 1)); EvGetChipId (Some 0x0410);
     EvWriteUnprotect STM32_OK; EvErase STM32_OK].
Proof.
  destruct (session_order (sample_device 0 (Some (2, 1)) (Some 0x0410))
              (sample_fs 2) (sample_param "flash.bin" 0 1)
              [EvFopen "flash.bin" true; EvInit "/dev/cu.usbmodem" 9600 STM32_OK;
               EvGetVersion (Some (2, 1)); EvGetChipId (Some 0x0410);
               EvWriteUnprotect STM32_OK; EvErase STM32_OK]
              EvWriteFlash
              [EvWriteMemory 0x08000000 [Byte.x00; Byte.x00] STM32_OK;
               EvProgress 10; EvFclose; EvGo STM32_OK]
              eq_refl) as (Hcommand & _ & Hprogram).
  split; [ apply Hcommand | apply Hprogram ]; reflexivity.
Defined.

(** ** The choice of the erase command *)

Lemma milestones_snoc (tr : list event) (e : event) :
  milestones (tr ++ [e]) =
    if is_milestone e then milestones tr ++ [e] else milestones tr.
Proof.
  unfold milestones. rewrite filter_app. cbn [filter].
  destruct (is_milestone e); [ reflexivity | apply app_nil_r ].
Qed.

Lemma erase_commands_milestones (tr : list event) :
  erase_commands tr = erase_commands (milestones tr).
Proof.
  unfold erase_commands, milestones.
  induction tr as [| e tr IH]; [ reflexivity | ].
  cbn [filter]. destruct e; cbn [is_erase_command is_milestone filter]; rewrite <- ?IH; reflexivity.
Qed.

Lemma milestones_In (tr : list event) (e : event) :
  In e tr -> is_milestone e = true -> In e (milestones tr).
Proof. intros Hin He. apply filter_In. split; assumption. Qed.

Ltac milestone_tac :=
  fields; rewrite ?milestones_snoc; cbn [is_milestone];
  repeat match goal with
         | H : milestones (trace _) = _ |- _ => rewrite H; clear H
         end;
  try reflexivity.

(** The milestones of every run have one of four shapes. *)
Lemma main_milestones (dev : device) (fs : filesystem) (pp : ProgParam) :
  hoare (fun w => milestones (trace w) = [])
    (main dev fs pp)
    (fun _ w => erase_shape dev (milestones (trace w)))
    (fun _ w => erase_shape dev (milestones (trace w))).
Proof.
  apply main_hoare with
    (P1 := fun _ w => milestones (trace w) = [])
    (P2 := fun _ w => milestones (trace w) = [])
    (P3 := fun _ v w => milestones (trace w) = [EvGetVersion (Some v)])
    (P4 := fun _ v w => milestones (trace w) = [EvGetVersion (Some v)])
    (P5 := fun _ _ w => erase_shape dev (milestones (trace w))).
  - intros w Hw. exec. split_cases; try left; milestone_tac.
  - intros pp'. eapply hoare_weaken;
      [ apply (connect_loop_inv dev (fun w => milestones (trace w) = []));
        try (intros w v H; exact H) | auto .. ].
    + intros w e Hw He. destruct e; try discriminate; milestone_tac.
    + intros u w [Hw _]. exact Hw.
    + intros h w [Hw _]. left. exact Hw.
  - intros pp' w Hw. exec.
    destruct (dev_get_version dev) as [[major minor] |]; cbv beta iota; fields.
    + split_cases; [ right; left; eexists | ]; milestone_tac.
    + right. left. eexists. milestone_tac.
  - intros pp' v w Hw. exec.
    destruct (dev_get_chip_id dev) as [version |]; cbv beta iota; fields.
    + rewrite chip_id_check_spec.
      destruct (supported_chip (u16 version)); [ | right; left; eexists ]; milestone_tac.
    + right. left. eexists. milestone_tac.
  - intros pp' v.
    apply flash_step_hoare with
      (P1 := fun w => milestones (trace w)
                      = [EvGetVersion (Some v); EvWriteUnprotect STM32_OK])
      (P2 := fun w => milestones (trace w)
                      = [EvGetVersion (Some v); EvWriteUnprotect STM32_OK;
                         erase_command_for dev (fst v)]).
    + intros _ w Hw. right. left. eexists. exact Hw.
    + intros w Hw. exec.
      destruct (dev_write_unprotect dev); cbn [is_ok];
        [ | right; right; left; exists v ]; milestone_tac.
    + intros w Hw. exec. unfold erase_command_for.
      destruct (fst v =? 3) eqn:Hmajor;
        [ destruct (dev_extended_erase dev) eqn:Hanswer
        | destruct (dev_erase dev) eqn:Hanswer ];
        cbn [is_ok]; cbv beta iota; fields;
        try (right; right; right; exists v; unfold erase_command_for;
             rewrite Hmajor, Hanswer);
        milestone_tac.
    + eapply hoare_weaken;
        [ apply (program_step_inv dev
                   (fun w => milestones (trace w)
                             = [EvGetVersion (Some v); EvWriteUnprotect STM32_OK;
                                erase_command_for dev (fst v)]));
          try (intros w u H; exact H) | auto .. ].
      * intros w e Hw He. destruct e; try discriminate; milestone_tac.
      * intros w Hw. milestone_tac.
      * intros w Hw. milestone_tac.
      * intros u w Hw. right. right. right. exists v. exact Hw.
      * intros h w [Hw _]. right. right. right. exists v. exact Hw.
  - intros pp' v w Hw. exec. split_cases; milestone_tac; exact Hw.
Qed.

(** C6.  In every run that reaches the erase step (the bootloader has
    reported the version [major.minor] and acknowledged the
    write-unprotect command), exactly one erase command is issued: the
    extended erase if [major] is 3, the standard erase otherwise.  Nothing
    but [major] enters the choice. *)
Theorem erase_strategy (dev : device) (fs : filesystem) (pp : ProgParam)
    (major minor : Z) :
  In (EvGetVersion (Some (major, minor))) (trace (snd (run dev fs pp))) ->
  In (EvWriteUnprotect STM32_OK) (trace (snd (run dev fs pp))) ->
  erase_commands (trace (snd (run dev fs pp))) =
    [if major =? 3
     then EvExtendedErase (dev_extended_erase dev)
     else EvErase (dev_erase dev)].
Proof.
  intros Hversion Hunprotect.
  pose proof (hoare_final (main dev fs pp) _ _ initial_world
                (main_milestones dev fs pp) eq_refl) as Hshape.
  fold (run dev fs pp) in Hshape.
  apply milestones_In in Hversion; [ | reflexivity ].
  apply milestones_In in Hunprotect; [ | reflexivity ].
  rewrite erase_commands_milestones.
  destruct Hshape as [Hs | [(r & Hs) | [(v & Hs) | (v & Hs)]]];
    rewrite Hs in *; cbn [In] in Hversion, Hunprotect.
  - contradiction.
  - destruct Hunprotect as [H | []]. discriminate.
  - destruct Hunprotect as [H | [H | []]]; discriminate.
  - destruct Hversion as [H | [H | [H | []]]].
    + inversion H; subst. unfold erase_command_for. cbn [fst].
      destruct (major =? 3); reflexivity.
    + discriminate.
    + unfold erase_command_for in H. destruct (fst v =? 3); discriminate.
Qed.

Lemma erase_strategy_witness :
  erase_commands
    (trace (snd (run (sample_device 0 (Some (3, 1)) (Some 0x0413)) (sample_fs 2)
                   (sample_param "flash.bin" 0 0))))
  = [EvExtendedErase STM32_OK].
Proof.
  apply (erase_strategy (sample_device 0 (Some (3, 1)) (Some 0x0413)) (sample_fs 2)
           (sample_param "flash.bin" 0 0) 3 1).
  - vm_compute. tauto.
  - vm_compute. tauto.
Defined.

(** ** A whole run *)

(** An image of 512 bytes on a bootloader of version 2.1: two
    write-memory commands of 256 bytes at the flash base and 256 bytes
    above it, the percentages 10 and 20 printed, no Go command. *)
Example run_two_blocks :
  run (sample_device 0 (Some (2, 1)) (Some 0x0410)) (sample_fs 512)
      (sample_param "flash.bin" 0 0)
  = (Ret 0,
     {| fp := Some {| f_data := repeat Byte.x00 512; f_pos := 512; f_eof := true |};
        fpsize := 512;
        expected_next := 30;
        timeout := 0;
        init_calls := 1;
        write_calls := 2;
        trace :=
          [EvFopen "flash.bin" true;
           EvInit "/dev/cu.usbmodem" 9600 STM32_OK;
           EvGetVersion (Some (2, 1));
           EvGetChipId (Some 0x0410);
           EvWriteUnprotect STM32_OK;
           EvErase STM32_OK;
           EvWriteFlash;
           EvWriteMemory 0x08000000 (repeat Byte.x00 256) STM32_OK;
           EvProgress 10;
           EvWriteMemory 0x08000100 (repeat Byte.x00 256) STM32_OK;
           EvProgress 20;
           EvFclose] |}).
Proof. vm_compute. reflexivity. Qed.

(** A bootloader of version 3.0 that never answers the sync byte in
    time: 61 attempts, then the process gives up. *)
Example run_never_connects :
  fst (run (sample_device 100 (Some (3, 0)) (Some 0x0410)) (sample_fs 512)
         (sample_param "flash.bin" 0 1))
    = Halt (Exit 1 UnableToConnect)
  /\ init_calls (snd (run (sample_device 100 (Some (3, 0)) (Some 0x0410))
                        (sample_fs 512) (sample_param "flash.bin" 0 1)))
     = 61%nat.
Proof. split; vm_compute; reflexivity. Qed.

(** * Further properties of the callbacks and of [main] *)

(** ** The data callback *)

Lemma firstn_add_skipn {A} (n m : nat) (l : list A) :
  firstn (n + m) l = firstn n l ++ firstn m (skipn n l).
Proof.
  revert l. induction n as [| n IH]; intros l; [ reflexivity | ].
  destruct l as [| a l]; cbn [Nat.add firstn skipn app].
  - rewrite firstn_nil. reflexivity.
  - rewrite IH. reflexivity.
Qed.

Lemma skipn_add {A} (n m : nat) (l : list A) :
  skipn (n + m) l = skipn m (skipn n l).
Proof.
  revert l. induction n as [| n IH]; intros l; [ reflexivity | ].
  destruct l as [| a l]; cbn [Nat.add skipn]; [ rewrite skipn_nil; reflexivity | apply IH ].
Qed.

(** What one call on an open stream does, in terms of the bytes left. *)
Lemma writeh_read_data_open (len : Z) (w : world) (f : FILE) :
  fp w = Some f ->
  f_eof f = false ->
  writeh_read_data len w =
    (Ret (firstn (Z.to_nat len) (skipn (f_pos f) (f_data f))),
     set_fp (Some (snd (fread len f))) w).
Proof.
  intros Hfp Heof. unfold writeh_read_data, bind, get, modify, ret.
  rewrite Hfp, Heof. reflexivity.
Qed.

Lemma writeh_read_data_at_eof (len : Z) (w : world) (f : FILE) :
  fp w = Some f ->
  f_eof f = true ->
  writeh_read_data len w = (Ret [], w).
Proof.
  intros Hfp Heof. unfold writeh_read_data, bind, get, ret.
  rewrite Hfp, Heof. reflexivity.
Qed.

(** X1.  A call on an open stream delivers the next bytes of the file,
    as many as asked for or as are left, whichever is less, and the
    stream has that many bytes less to deliver; when at least one byte is
    asked for, nothing is delivered exactly when nothing is left. *)
Theorem writeh_read_data_delivers (len : Z) (w : world) (f : FILE) :
  fp w = Some f ->
  f_eof f = false ->
  0 <= len ->
  exists chunk w',
    writeh_read_data len w = (Ret chunk, w') /\
    chunk = firstn (Z.to_nat len) (skipn (f_pos f) (f_data f)) /\
    Z.of_nat (List.length chunk) = Z.min len (Z.of_nat (bytes_left w)) /\
    bytes_left w' = (bytes_left w - List.length chunk)%nat /\
    (0 < len -> (chunk = [] <-> bytes_left w = 0%nat)).
Proof.
  intros Hfp Heof Hlen.
  rewrite (writeh_read_data_open len w f Hfp Heof).
  set (chunk := firstn (Z.to_nat len) (skipn (f_pos f) (f_data f))).
  assert (Hcount : List.length chunk
                   = Nat.min (Z.to_nat len) (List.length (f_data f) - f_pos f)).
  { subst chunk. rewrite length_firstn, length_skipn. reflexivity. }
  exists chunk, (set_fp (Some (snd (fread len f))) w).
  unfold bytes_left. fields. rewrite Hfp. unfold fread. cbn [snd f_data f_pos].
  fold chunk. repeat split; try lia.
  - intros Hnil. rewrite Hnil in Hcount. cbn [List.length] in Hcount. lia.
  - intros Hleft. apply length_zero_iff_nil. lia.
Qed.

Lemma writeh_read_data_delivers_witness :
  exists chunk w',
    writeh_read_data 2
      (set_fp (Some {| f_data := [Byte.x01; Byte.x02; Byte.x03]; f_pos := 0;
                       f_eof := false |}) initial_world)
    = (Ret chunk, w') /\
    chunk = [Byte.x01; Byte.x02] /\
    Z.of_nat (List.length chunk) = 2 /\
    bytes_left w' = (3 - List.length chunk)%nat /\
    (0 < 2 -> (chunk = [] <-> 3%nat = 0%nat)).
Proof.
  exact (writeh_read_data_delivers 2
           (set_fp (Some {| f_data := [Byte.x01; Byte.x02; Byte.x03]; f_pos := 0;
                            f_eof := false |}) initial_world)
           {| f_data := [Byte.x01; Byte.x02; Byte.x03]; f_pos := 0; f_eof := false |}
           eq_refl eq_refl ltac:(lia)).
Defined.

(** X2.  Two calls in a row deliver together what one call for the sum
    of the two lengths delivers, and leave the stream in the same state:
    how the file is cut into blocks does not change what is read. *)
Theorem writeh_read_data_twice (len1 len2 : Z) (w : world) (f : FILE) :
  fp w = Some f ->
  f_eof f = false ->
  0 <= len1 ->
  0 <= len2 ->
  (chunk1 <- writeh_read_data len1 ;;
   chunk2 <- writeh_read_data len2 ;;
   ret (chunk1 ++ chunk2)) w
  = writeh_read_data (len1 + len2) w.
Proof.
  intros Hfp Heof Hlen1 Hlen2.
  unfold bind at 1.
  rewrite (writeh_read_data_open len1 w f Hfp Heof).
  rewrite (writeh_read_data_open (len1 + len2) w f Hfp Heof).
  set (rest := skipn (f_pos f) (f_data f)).
  set (c1 := firstn (Z.to_nat len1) rest).
  assert (Hc1 : List.length c1 = Nat.min (Z.to_nat len1) (List.length rest))
    by (subst c1; apply length_firstn).
  assert (Hsum : Z.to_nat (len1 + len2) = (Z.to_nat len1 + Z.to_nat len2)%nat) by lia.
  unfold bind at 1. unfold fread. cbn [snd]. fold rest. fold c1.
  destruct (Z.ltb_spec (Z.of_nat (List.length c1)) len1) as [Hshort | Hfull].
  - (* the first call came back short: the file is exhausted *)
    assert (Hall : c1 = rest) by (subst c1; apply firstn_all2; lia).
    erewrite writeh_read_data_at_eof;
      [ | reflexivity | cbn [f_eof]; rewrite Heof; reflexivity ].
    unfold ret. rewrite app_nil_r.
    assert (Hwhole : firstn (Z.to_nat (len1 + len2)) rest = rest).
    { apply firstn_all2. rewrite <- Hall at 1. lia. }
    rewrite Hwhole, Hall, Heof. cbn [orb].
    replace (Z.of_nat (List.length rest) <? len1 + len2) with true;
      [ reflexivity | ].
    symmetry. apply Z.ltb_lt. rewrite <- Hall at 1. lia.
  - (* the first call was served in full *)
    assert (Hlen : List.length c1 = Z.to_nat len1) by lia.
    rewrite Heof. cbn [orb].
    erewrite writeh_read_data_open; [ | reflexivity | reflexivity ].
    unfold ret, fread. cbn [snd f_data f_pos f_eof orb].
    rewrite Hlen, skipn_add. fold rest.
    rewrite Hsum, firstn_add_skipn. fold c1.
    set (c2 := firstn (Z.to_nat len2) (skipn (Z.to_nat len1) rest)).
    rewrite length_app, Hlen, Nat.add_assoc.
    replace (Z.of_nat (Z.to_nat len1 + List.length c2) <? len1 + len2)
      with (Z.of_nat (List.length c2) <? len2); [ reflexivity | ].
    destruct (Z.ltb_spec (Z.of_nat (List.length c2)) len2);
      destruct (Z.ltb_spec (Z.of_nat (Z.to_nat len1 + List.length c2)) (len1 + len2));
      try reflexivity; lia.
Qed.

Lemma writeh_read_data_twice_witness :
  (chunk1 <- writeh_read_data 2 ;;
   chunk2 <- writeh_read_data 2 ;;
   ret (chunk1 ++ chunk2))
    (set_fp (Some {| f_data := [Byte.x01; Byte.x02; Byte.x03]; f_pos := 0;
                     f_eof := false |}) initial_world)
  = (Ret [Byte.x01; Byte.x02; Byte.x03],
     set_fp (Some {| f_data := [Byte.x01; Byte.x02; Byte.x03]; f_pos := 3;
                     f_eof := true |}) initial_world).
Proof.
  exact (writeh_read_data_twice 2 2
           (set_fp (Some {| f_data := [Byte.x01; Byte.x02; Byte.x03]; f_pos := 0;
                            f_eof := false |}) initial_world)
           {| f_data := [Byte.x01; Byte.x02; Byte.x03]; f_pos := 0; f_eof := false |}
           eq_refl eq_refl ltac:(lia) ltac:(lia)).
Defined.

(** X3.  A short read is final: once a call has delivered fewer bytes
    than it was asked for, every later call delivers nothing and changes
    nothing, whatever is asked. *)
Theorem writeh_read_data_short_is_final (len len' : Z) (w w' : world)
    (chunk : list byte) :
  writeh_read_data len w = (Ret chunk, w') ->
  Z.of_nat (List.length chunk) < len ->
  writeh_read_data len' w' = (Ret [], w').
Proof.
  intros Hread Hshort.
  destruct (fp w) as [f |] eqn:Hfp.
  - destruct (f_eof f) eqn:Heof.
    + rewrite (writeh_read_data_at_eof len w f Hfp Heof) in Hread.
      injection Hread as <- <-. apply (writeh_read_data_at_eof len' w f Hfp Heof).
    + rewrite (writeh_read_data_open len w f Hfp Heof) in Hread.
      injection Hread as <- <-.
      apply (writeh_read_data_at_eof len' _ (snd (fread len f))); [ reflexivity | ].
      unfold fread. cbn [snd f_eof]. rewrite Heof. cbn [orb].
      apply Z.ltb_lt. exact Hshort.
  - unfold writeh_read_data, bind, get, fault in Hread. rewrite Hfp in Hread.
    discriminate.
Qed.

Lemma writeh_read_data_short_is_final_witness :
  writeh_read_data 256
    (set_fp (Some {| f_data := [Byte.x01; Byte.x02; Byte.x03]; f_pos := 3;
                     f_eof := true |}) initial_world)
  = (Ret [],
     set_fp (Some {| f_data := [Byte.x01; Byte.x02; Byte.x03]; f_pos := 3;
                     f_eof := true |}) initial_world).
Proof.
  exact (writeh_read_data_short_is_final 4 256
           (set_fp (Some {| f_data := [Byte.x01; Byte.x02; Byte.x03]; f_pos := 0;
                            f_eof := false |}) initial_world)
           (set_fp (Some {| f_data := [Byte.x01; Byte.x02; Byte.x03]; f_pos := 3;
                            f_eof := true |}) initial_world)
           [Byte.x01; Byte.x02; Byte.x03] eq_refl ltac:(cbn; lia)).
Defined.

(** Enough calls deliver all that is left, in order. *)
Lemma read_blocks_rest (len : Z) (n : nat) :
  0 < len ->
  forall (w : world) (f : FILE),
    fp w = Some f ->
    (f_eof f = true -> (List.length (f_data f) <= f_pos f)%nat) ->
    Z.of_nat (bytes_left w) <= Z.of_nat n * len ->
    fst (read_blocks n len w) = Ret (skipn (f_pos f) (f_data f)).
Proof.
  intros Hlen. induction n as [| n IH]; intros w f Hfp Heof Hleft;
    unfold bytes_left in Hleft; rewrite Hfp in Hleft.
  - cbn. rewrite skipn_all2 by lia. reflexivity.
  - cbn [read_blocks]. unfold bind at 1.
    destruct (f_eof f) eqn:Hflag.
    + rewrite (writeh_read_data_at_eof len w f Hfp Hflag).
      assert (Hnext : fst (read_blocks n len w) = Ret (skipn (f_pos f) (f_data f))).
      { apply IH; [ exact Hfp | rewrite Hflag; exact Heof | ].
        specialize (Heof eq_refl). unfold bytes_left. rewrite Hfp. lia. }
      unfold bind. destruct (read_blocks n len w) as [[r | h] w1];
        cbn [fst] in Hnext; [ | discriminate ].
      injection Hnext as ->. reflexivity.
    + rewrite (writeh_read_data_open len w f Hfp Hflag).
      set (rest := skipn (f_pos f) (f_data f)).
      set (chunk := firstn (Z.to_nat len) rest).
      assert (Hrest : List.length rest = (List.length (f_data f) - f_pos f)%nat)
        by (subst rest; apply length_skipn).
      assert (Hchunk : List.length chunk = Nat.min (Z.to_nat len) (List.length rest))
        by (subst chunk; apply length_firstn).
      set (w1 := set_fp (Some (snd (fread len f))) w).
      assert (Hnext : fst (read_blocks n len w1)
                      = Ret (skipn (Z.to_nat len) rest)).
      { rewrite (IH w1 (snd (fread len f)) eq_refl).
        - unfold fread. cbn [snd f_data f_pos]. fold rest. fold chunk.
          rewrite skipn_add. fold rest. rewrite Hchunk.
          destruct (Nat.min_spec (Z.to_nat len) (List.length rest)) as [[_ ->] | [Hall ->]];
            [ reflexivity | ].
          rewrite skipn_all. rewrite skipn_all2 by lia. reflexivity.
        - unfold fread. cbn [snd f_data f_pos f_eof]. fold rest. fold chunk.
          intros Hshort. apply orb_true_iff in Hshort.
          destruct Hshort as [Hshort | Hshort]; [ congruence | ].
          apply Z.ltb_lt in Hshort. lia.
        - subst w1. unfold bytes_left, fread. fields. cbn [snd f_data f_pos].
          fold rest. fold chunk. lia. }
      unfold bind. destruct (read_blocks n len w1) as [[r | h] w2];
        cbn [fst] in Hnext; [ | discriminate ].
      injection Hnext as ->. unfold ret. cbn [fst]. subst chunk.
      rewrite firstn_skipn. reflexivity.
Qed.

(** X4.  Read in blocks of any positive size, a freshly opened file
    comes out whole and in order, provided the calls are enough to cover
    its size; calls beyond the end add nothing. *)
Theorem read_blocks_whole_file (data : list byte) (len : Z) (n : nat) (w : world) :
  fp w = Some {| f_data := data; f_pos := 0; f_eof := false |} ->
  0 < len ->
  Z.of_nat (List.length data) <= Z.of_nat n * len ->
  fst (read_blocks n len w) = Ret data.
Proof.
  intros Hfp Hlen Hcover.
  rewrite (read_blocks_rest len n Hlen w _ Hfp).
  - reflexivity.
  - discriminate.
  - unfold bytes_left. rewrite Hfp. cbn [f_data f_pos]. lia.
Qed.

Lemma read_blocks_whole_file_witness :
  fst (read_blocks 3 2
         (set_fp (Some {| f_data := [Byte.x01; Byte.x02; Byte.x03]; f_pos := 0;
                          f_eof := false |}) initial_world))
  = Ret [Byte.x01; Byte.x02; Byte.x03].
Proof.
  exact (read_blocks_whole_file [Byte.x01; Byte.x02; Byte.x03] 2 3
           (set_fp (Some {| f_data := [Byte.x01; Byte.x02; Byte.x03]; f_pos := 0;
                            f_eof := false |}) initial_world)
           eq_refl ltac:(lia) ltac:(cbn; lia)).
Defined.

(** ** The connect loop on any transport *)

(** Among the first [n] attempts either one is acknowledged, all before
    it failing, or all fail. *)
Lemma first_acknowledged (dev : device) (n : nat) :
  (exists k, (k < n)%nat /\ dev_init dev k = STM32_OK /\
             forall i, (i < k)%nat -> dev_init dev i = STM32_NOT_OK)
  \/ (forall i, (i < n)%nat -> dev_init dev i = STM32_NOT_OK).
Proof.
  induction n as [| n [(k & Hk & Hok & Hbefore) | Hall]].
  - right. intros i Hi. lia.
  - left. exists k. repeat split; auto.
  - destruct (dev_init dev n) eqn:Hn.
    + left. exists n. repeat split; auto.
    + right. intros i Hi. destruct (Nat.eq_dec i n) as [-> | Hne]; [ exact Hn | ].
      apply Hall. lia.
Qed.

(** X7.  Whatever the transport answers, the session connects exactly
    when one of the first 61 connect attempts (the first and 60 retries)
    is acknowledged. *)
Theorem connects_iff_acknowledged (dev : device) (port : string) (baud : Z) :
  connects dev port baud = true
  <-> exists k, (k <= 60)%nat /\ dev_init dev k = STM32_OK.
Proof.
  unfold connects.
  destruct (first_acknowledged dev 61) as [(k & Hk & Hok & Hbefore) | Hall].
  - rewrite (connect_loop_retries dev port baud k CONNECT_FUEL initial_world);
      cbn [init_calls timeout initial_world Nat.add]; try lia; auto.
    + split; [ intros _; exists k; split; [ lia | exact Hok ] | reflexivity ].
    + unfold CONNECT_FUEL. lia.
  - rewrite (connect_loop_gives_up dev port baud 61 CONNECT_FUEL initial_world);
      cbn [init_calls timeout initial_world Nat.add]; try lia; auto.
    + split; [ discriminate | ].
      intros (k & Hk & Hok). rewrite Hall in Hok by lia. discriminate.
    + unfold CONNECT_FUEL. lia.
Qed.

Lemma count_snoc (p : event -> bool) (tr : list event) (e : event) :
  count p (tr ++ [e]) = (count p tr + if p e then 1 else 0)%nat.
Proof.
  unfold count. rewrite filter_app, length_app. cbn [filter].
  destruct (p e); reflexivity.
Qed.

(** At most 61 attempts, and one sleep for each failed attempt. *)
Lemma attempts_log (w : world) (e : event) :
  (count is_attempt (trace w) <= 61)%nat /\
  count is_sleep (trace w) = count is_failed_attempt (trace w) ->
  is_connect_event e = false ->
  (count is_attempt (trace (log e w)) <= 61)%nat /\
  count is_sleep (trace (log e w)) = count is_failed_attempt (trace (log e w)).
Proof.
  intros [Hattempts Hsleeps] He. fields. rewrite !count_snoc.
  destruct e; try discriminate; cbn [is_attempt is_sleep is_failed_attempt]; lia.
Qed.

Lemma connect_loop_attempts (dev : device) (port : string) (baud : Z) :
  forall fuel,
    hoare (fun w => count is_attempt (trace w) = count is_failed_attempt (trace w)
                    /\ count is_sleep (trace w) = count is_failed_attempt (trace w)
                    /\ Z.of_nat (count is_failed_attempt (trace w)) = timeout w
                    /\ timeout w <= 60)
      (connect_loop dev fuel port baud)
      (fun _ w => (count is_attempt (trace w) <= 61)%nat
                  /\ count is_sleep (trace w) = count is_failed_attempt (trace w))
      (fun _ w => (count is_attempt (trace w) <= 61)%nat
                  /\ count is_sleep (trace w) = count is_failed_attempt (trace w)).
Proof.
  induction fuel as [| fuel IH]; intros w (Hattempts & Hsleeps & Hfailed & Ht).
  - cbn. split; lia.
  - cbn [connect_loop]. exec.
    destruct (dev_init dev (init_calls w)); cbn [is_ok]; fields.
    + rewrite !count_snoc. cbn [is_attempt is_sleep is_failed_attempt]. lia.
    + rewrite s32_small by lia.
      destruct (Z.gtb_spec (timeout w + 1) 60) as [Hgt | Hle].
      * fields. rewrite !count_snoc. cbn [is_attempt is_sleep is_failed_attempt]. lia.
      * apply IH. fields. rewrite !count_snoc.
        cbn [is_attempt is_sleep is_failed_attempt]. lia.
Qed.

(** X8.  In every run, whatever the transport answers, at most 61
    connect attempts are made, and the process sleeps exactly once for
    each attempt that failed. *)
Theorem run_attempts_bounded (dev : device) (fs : filesystem) (pp : ProgParam) :
  (count is_attempt (trace (snd (run dev fs pp))) <= 61)%nat
  /\ count is_sleep (trace (snd (run dev fs pp)))
     = count is_failed_attempt (trace (snd (run dev fs pp))).
Proof.
  set (before := fun w : world =>
         count is_attempt (trace w) = count is_failed_attempt (trace w)
         /\ count is_sleep (trace w) = count is_failed_attempt (trace w)
         /\ Z.of_nat (count is_failed_attempt (trace w)) = timeout w
         /\ timeout w <= 60).
  set (after := fun w : world =>
         (count is_attempt (trace w) <= 61)%nat
         /\ count is_sleep (trace w) = count is_failed_attempt (trace w)).
  assert (Hweak : forall w, before w -> after w).
  { intros w (H1 & H2 & H3 & H4). split; [ lia | exact H2 ]. }
  assert (Hlog : forall w e, after w -> is_connect_event e = false -> after (log e w))
    by (intros w e; apply attempts_log).
  assert (Hlog0 : forall w e, before w -> is_connect_event e = false -> before (log e w)).
  { intros w e (H1 & H2 & H3 & H4) He. subst before. fields. rewrite !count_snoc.
    destruct e; try discriminate; cbn [is_attempt is_sleep is_failed_attempt];
      repeat split; lia. }
  apply (hoare_final (main dev fs pp) before after); [ | repeat split; cbn; lia ].
  apply main_hoare with
    (P1 := fun _ => before) (P2 := fun _ => after) (P3 := fun _ _ => after)
    (P4 := fun _ _ => after) (P5 := fun _ _ => after).
  - intros w Hw. exec. split_cases; auto; try (apply Hweak; exact Hw).
    exact (Hlog0 w (EvFopen (file pp) true) Hw eq_refl).
  - intros pp'. apply connect_loop_attempts.
  - intros pp' w Hw. exec.
    destruct (dev_get_version dev) as [[major minor] |]; cbv beta iota; fields;
      split_cases; apply (Hlog w); auto.
  - intros pp' v w Hw. exec.
    destruct (dev_get_chip_id dev) as [version |]; cbv beta iota; fields;
      [ rewrite chip_id_check_spec | ]; split_cases; apply (Hlog w); auto.
  - intros pp' v. apply flash_step_hoare with (P1 := after) (P2 := after).
    + auto.
    + intros w Hw. exec. destruct (dev_write_unprotect dev); cbn [is_ok];
        apply (Hlog w); auto.
    + intros w Hw. exec. split_cases; apply (Hlog w); auto.
    + eapply hoare_weaken;
        [ apply (program_step_inv dev after); try (intros w u H; exact H) | auto .. ].
      * intros w e Hw He. apply Hlog; [ exact Hw | ].
        destruct e; try discriminate; reflexivity.
      * intros w Hw. apply Hlog; auto.
      * intros w Hw. apply Hlog; auto.
      * intros h w [Hw _]. exact Hw.
  - intros pp' v w Hw. exec. split_cases; try exact Hw; apply (Hlog w); auto.
Qed.

(** ** The skip flag *)

(** X9.  With the skip flag set, whatever the file argument is, the run
    is the handshake, the version and chip ID queries and the optional Go
    command: the file is not opened, and no write-unprotect, erase or
    programming command is issued. *)
Theorem skip_flag_skips_programming (dev : device) (fs : filesystem)
    (pp : ProgParam) :
  skip_flash pp <> 0 ->
  run dev fs pp =
    ((if first_char (port pp) =? 0 then exit 1 NoUartPortSelected else ret tt) ;;
     connect_loop dev CONNECT_FUEL (port pp) (baudrate pp) ;;
     v <- get_version_step dev ;;
     get_chip_id_step dev ;;
     go_step dev pp ;;
     ret 0) initial_world
  /\ Forall (fun e => is_flashing_event e = false) (trace (snd (run dev fs pp))).
Proof.
  intros Hskip. unfold run.
  split; [ apply main_skipping; left; exact Hskip | ].
  set (quiet := fun w => Forall (fun e => is_flashing_event e = false) (trace w)).
  apply (hoare_final (main dev fs pp) quiet quiet); [ | constructor ].
  apply main_hoare with
    (P1 := fun pp' w => quiet w /\ skip_flash pp' <> 0)
    (P2 := fun pp' w => quiet w /\ skip_flash pp' <> 0)
    (P3 := fun pp' _ w => quiet w /\ skip_flash pp' <> 0)
    (P4 := fun pp' _ w => quiet w /\ skip_flash pp' <> 0)
    (P5 := fun _ _ w => quiet w).
  - intros w Hw. exec. apply Z.eqb_neq in Hskip. rewrite Hskip.
    split_cases; auto. split; [ exact Hw | apply Z.eqb_neq; exact Hskip ].
  - intros pp'. eapply hoare_weaken;
      [ apply (connect_loop_inv dev (fun w => quiet w /\ skip_flash pp' <> 0)) | .. ];
      subst quiet; cbv beta; fields; try tauto.
    intros w e [Hw Hs] He. split; [ | exact Hs ]. fields.
    apply Forall_snoc; [ exact Hw | ]. destruct e; try discriminate; reflexivity.
  - intros pp' w [Hw Hs]. subst quiet. exec. split_cases; fields;
      repeat split; try assumption; apply Forall_snoc; auto.
  - intros pp' v w [Hw Hs]. subst quiet. exec.
    destruct (dev_get_chip_id dev); [ rewrite chip_id_check_spec | ];
      split_cases; fields; repeat split; try assumption; apply Forall_snoc; auto.
  - intros pp' v w [Hw Hs]. unfold flash_step.
    destruct (Z.eqb_spec (skip_flash pp') 0); [ contradiction | exact Hw ].
  - intros pp' v w Hw. subst quiet. exec. split_cases; fields;
      try assumption; apply Forall_snoc; auto.
Qed.

Lemma skip_flag_skips_programming_witness :
  trace (snd (run (sample_device 0 (Some (2, 1)) (Some 0x0410)) (sample_fs 512)
                (sample_param "flash.bin" 1 0)))
  = [EvInit "/dev/cu.usbmodem" 9600 STM32_OK; EvGetVersion (Some (2, 1));
     EvGetChipId (Some 0x0410)]
  /\ Forall (fun e => is_flashing_event e = false)
       (trace (snd (run (sample_device 0 (Some (2, 1)) (Some 0x0410)) (sample_fs 512)
                      (sample_param "flash.bin" 1 0)))).
Proof.
  split; [ reflexivity | ].
  apply (skip_flag_skips_programming (sample_device 0 (Some (2, 1)) (Some 0x0410))
           (sample_fs 512) (sample_param "flash.bin" 1 0)).
  cbn. discriminate.
Defined.

(** ** How a run ends *)

Lemma clean_snoc (tr : list event) (e : event) :
  clean tr -> is_fatal e = false -> clean (tr ++ [e]).
Proof. intros Htr He. unfold clean. apply Forall_snoc; assumption. Qed.

(** The verdict on an exit right after the fatal event [e]. *)
Lemma verdict_fatal (pp : ProgParam) (m : message) (tr : list event) (e : event) :
  clean tr -> is_fatal e = true -> blamed pp m (tr ++ [e]) ->
  verdict pp (Exit 1 m) (tr ++ [e]).
Proof.
  intros Hclean Hfatal Hblamed. cbn [verdict].
  split; [ reflexivity | split; [ exact Hblamed | ] ].
  right. exists tr, e. auto.
Qed.

Lemma ends_with_snoc (tr : list event) (e : event) : ends_with (tr ++ [e]) [e].
Proof. exists tr. reflexivity. Qed.

Lemma connect_loop_verdict (pp : ProgParam) (dev : device) (port : string) (baud : Z) :
  forall fuel,
    hoare (fun w => clean (trace w) /\ 0 <= timeout w <= 60)
      (connect_loop dev fuel port baud)
      (fun _ w => clean (trace w))
      (fun h w => verdict pp h (trace w)).
Proof.
  induction fuel as [| fuel IH]; intros w [Hclean Ht].
  - exact Hclean.
  - cbn [connect_loop]. exec.
    destruct (dev_init dev (init_calls w)); cbn [is_ok]; fields.
    + apply clean_snoc; [ exact Hclean | reflexivity ].
    + rewrite s32_small by lia.
      assert (Hclean' : clean (((trace w ++ [EvInit port baud STM32_NOT_OK])
                                 ++ [EvRetry (timeout w + 1)]) ++ [EvSleep 1]))
        by (repeat (apply clean_snoc; [ | reflexivity ]); exact Hclean).
      destruct (Z.gtb_spec (timeout w + 1) 60) as [Hgt | Hle]; fields.
      * cbn [verdict blamed]. split; [ reflexivity | split; [ | left; exact Hclean' ] ].
        replace (timeout w + 1) with 61 by lia.
        exists (trace w ++ [EvInit port baud STM32_NOT_OK]).
        rewrite <- app_assoc. reflexivity.
      * apply IH. fields. split; [ exact Hclean' | lia ].
Qed.

(** Every run ends with a clean trace or right after its one fatal
    event, and an exit message goes with what the trace shows. *)
Lemma main_verdict (dev : device) (fs : filesystem) (pp : ProgParam) :
  hoare (fun w => trace w = [] /\ timeout w = 0)
    (main dev fs pp)
    (fun _ w => clean (trace w))
    (fun h w => verdict pp h (trace w)).
Proof.
  apply main_hoare with
    (P1 := fun _ w => clean (trace w) /\ timeout w = 0)
    (P2 := fun _ w => clean (trace w)) (P3 := fun _ _ w => clean (trace w))
    (P4 := fun _ _ w => clean (trace w)) (P5 := fun _ _ w => clean (trace w)).
  - intros w [Htrace Ht]. exec.
    destruct (Z.eqb_spec (first_char (port pp)) 0) as [Hport | Hport].
    + rewrite Htrace. cbn [verdict blamed]. repeat split; auto. left. constructor.
    + split_cases; fields; rewrite Htrace; cbn [app].
      * split; [ constructor | exact Ht ].
      * split; [ repeat constructor | exact Ht ].
      * apply (verdict_fatal pp _ [] (EvFopen (file pp) false));
          [ constructor | reflexivity | split; reflexivity ].
      * split; [ constructor | exact Ht ].
  - intros pp'. eapply hoare_weaken; [ apply (connect_loop_verdict pp) | | auto .. ].
    intros w [Hclean Ht]. split; [ exact Hclean | lia ].
  - intros pp' w Hclean. exec.
    destruct (dev_get_version dev) as [[major minor] |]; cbv beta iota; fields.
    + destruct (Z.ltb_spec (BL_MKVER (u8 major) (u8 minor)) BL_MINVERSION) as [Hlow | Hhigh].
      * apply verdict_fatal; [ exact Hclean | apply Z.ltb_lt; exact Hlow | ].
        exists (u8 major), (u8 minor). split; [ apply ends_with_snoc | exact Hlow ].
      * apply clean_snoc; [ exact Hclean | apply Z.ltb_ge; exact Hhigh ].
    + apply verdict_fatal; [ exact Hclean | reflexivity | apply ends_with_snoc ].
  - intros pp' v w Hclean. exec.
    destruct (dev_get_chip_id dev) as [version |]; cbv beta iota; fields.
    + rewrite chip_id_check_spec.
      destruct (supported_chip (u16 version)) eqn:Hsupported.
      * apply clean_snoc; [ exact Hclean | cbn [is_fatal]; rewrite Hsupported; reflexivity ].
      * apply verdict_fatal;
          [ exact Hclean | cbn [is_fatal]; rewrite Hsupported; reflexivity | ].
        exists (u16 version). split; [ apply ends_with_snoc | ].
        rewrite <- supported_chip_In, Hsupported. discriminate.
    + apply verdict_fatal; [ exact Hclean | reflexivity | apply ends_with_snoc ].
  - intros pp' v.
    apply flash_step_hoare with (P1 := fun w => clean (trace w))
                                (P2 := fun w => clean (trace w)).
    + auto.
    + intros w Hclean. exec. destruct (dev_write_unprotect dev); cbn [is_ok].
      * apply clean_snoc; [ exact Hclean | reflexivity ].
      * apply verdict_fatal; [ exact Hclean | reflexivity | apply ends_with_snoc ].
    + intros w Hclean. exec.
      destruct (fst v =? 3);
        [ destruct (dev_extended_erase dev) | destruct (dev_erase dev) ];
        cbn [is_ok]; cbv beta iota; fields;
        first [ apply clean_snoc; [ exact Hclean | reflexivity ]
              | apply verdict_fatal; [ exact Hclean | reflexivity | apply ends_with_snoc ] ].
    + unfold program_step.
      eapply hoare_bind with (Q := fun _ w => clean (trace w));
        [ intros w Hclean; exact Hclean | ].
      intros n.
      eapply hoare_bind
        with (Q := fun _ w => clean (trace w) /\ In EvWriteFlash (trace w)).
      * unfold stm32_write_flash.
        eapply hoare_bind
          with (Q := fun _ w => clean (trace w) /\ In EvWriteFlash (trace w)).
        -- intros w Hclean. exec. split;
             [ apply clean_snoc; [ exact Hclean | reflexivity ]
             | apply in_or_app; right; left; reflexivity ].
        -- intros u. eapply hoare_weaken;
             [ apply (write_loop_inv dev
                        (fun w => clean (trace w) /\ In EvWriteFlash (trace w)));
               try (intros w x H; exact H) | auto .. ].
           ++ intros w e [Hclean Hin] He. fields. split.
              ** apply clean_snoc; [ exact Hclean | ].
                 destruct e; try discriminate; reflexivity.
              ** apply in_or_app. left. exact Hin.
           ++ intros h w [[Hclean _] [-> | ->]]; exact Hclean.
      * intros r w [Hclean Hin]. exec. destruct (is_ok r); cbv beta iota; fields.
        -- destruct (fp w); [ apply clean_snoc; [ exact Hclean | reflexivity ]
                            | exact Hclean ].
        -- cbn [verdict blamed]. auto.
  - intros pp' v w Hclean. exec.
    destruct (send_go pp' =? 1); [ | exact Hclean ].
    destruct (dev_go dev); cbn [is_ok].
    + apply clean_snoc; [ exact Hclean | reflexivity ].
    + apply verdict_fatal; [ exact Hclean | reflexivity | apply ends_with_snoc ].
Qed.

Lemma run_verdict (dev : device) (fs : filesystem) (pp : ProgParam) :
  match fst (run dev fs pp) with
  | Ret _ => clean (trace (snd (run dev fs pp)))
  | Halt h => verdict pp h (trace (snd (run dev fs pp)))
  end.
Proof.
  pose proof (main_verdict dev fs pp initial_world (conj eq_refl eq_refl)) as H.
  unfold run. destruct (main dev fs pp initial_world) as [[a | h] w]; exact H.
Qed.

Lemma split_at_last {A} (pre pre' post : list A) (e e' : A) :
  pre ++ e :: post = pre' ++ [e'] ->
  (post = [] /\ pre = pre' /\ e = e') \/ In e pre'.
Proof.
  intros Hsplit. destruct post as [| y post].
  - left. apply app_inj_tail in Hsplit. tauto.
  - right.
    destruct (exists_last (l := y :: post) ltac:(discriminate)) as (post' & x & Hlast).
    rewrite Hlast in Hsplit.
    change (pre ++ e :: post' ++ [x]) with (pre ++ (e :: post') ++ [x]) in Hsplit.
    rewrite app_assoc in Hsplit. apply app_inj_tail in Hsplit.
    destruct Hsplit as [<- _]. apply in_or_app. right. left. reflexivity.
Qed.

(** X10.  When the process ends with a message, the exit status is 1
    and the message names what went wrong last: no port argument and
    nothing done yet; the file not opened, before anything else is done;
    the 61st connect attempt failed and slept out; or the command that
    failed, or the version or chip ID that was turned down, as the last
    event of the run ("Unable to program" after [stm32_write_flash] was
    called). *)
Theorem exit_message_names_the_failure (dev : device) (fs : filesystem)
    (pp : ProgParam) (code : Z) (m : message) :
  fst (run dev fs pp) = Halt (Exit code m) ->
  code = 1 /\ blamed pp m (trace (snd (run dev fs pp))).
Proof.
  intros Hexit. pose proof (run_verdict dev fs pp) as H.
  rewrite Hexit in H. cbn [verdict] in H. tauto.
Qed.

Lemma exit_message_names_the_failure_witness :
  1 = 1
  /\ blamed (sample_param "flash.bin" 0 1) UnsupportedChipId
       (trace (snd (run (sample_device 0 (Some (2, 1)) (Some 0x0999)) (sample_fs 4)
                      (sample_param "flash.bin" 0 1)))).
Proof.
  exact (exit_message_names_the_failure
           (sample_device 0 (Some (2, 1)) (Some 0x0999)) (sample_fs 4)
           (sample_param "flash.bin" 0 1) 1 UnsupportedChipId eq_refl).
Defined.

(** X11.  Nothing follows a fatal event: a file that could not be
    opened, a failed query or command, a version below the minimum or a
    chip ID that is not supported is the last event of its run, the only
    such event, and the run ends with exit status 1.  Only the connect
    attempt is ever retried. *)
Theorem fatal_event_ends_the_run (dev : device) (fs : filesystem) (pp : ProgParam)
    (pre : list event) (e : event) (post : list event) :
  trace (snd (run dev fs pp)) = pre ++ e :: post ->
  is_fatal e = true ->
  post = [] /\ clean pre /\ exists m, fst (run dev fs pp) = Halt (Exit 1 m).
Proof.
  intros Hsplit Hfatal. pose proof (run_verdict dev fs pp) as H.
  assert (Hdirty : ~ clean (trace (snd (run dev fs pp)))).
  { intros Hclean. rewrite Hsplit in Hclean. unfold clean in Hclean.
    rewrite Forall_forall in Hclean.
    specialize (Hclean e ltac:(apply in_or_app; right; left; reflexivity)).
    congruence. }
  destruct (fst (run dev fs pp)) as [a | [code m | |]]; cbn [verdict] in H;
    try contradiction.
  destruct H as (-> & _ & [Hclean | (pre' & e' & Htrace & Hpre' & _)]);
    [ contradiction | ].
  rewrite Htrace in Hsplit. symmetry in Hsplit.
  destruct (split_at_last _ _ _ _ _ Hsplit) as [(-> & -> & _) | Hin].
  - split; [ reflexivity | split; [ exact Hpre' | exists m; reflexivity ] ].
  - unfold clean in Hpre'. rewrite Forall_forall in Hpre'.
    specialize (Hpre' e Hin). congruence.
Qed.

Lemma fatal_event_ends_the_run_witness :
  @nil event = []
  /\ clean [EvFopen "flash.bin" true; EvInit "/dev/cu.usbmodem" 9600 STM32_OK]
  /\ exists m,
       fst (run (sample_device 0 (Some (1, 9)) (Some 0x0410)) (sample_fs 4)
              (sample_param "flash.bin" 0 1))
       = Halt (Exit 1 m).
Proof.
  exact (fatal_event_ends_the_run
           (sample_device 0 (Some (1, 9)) (Some 0x0410)) (sample_fs 4)
           (sample_param "flash.bin" 0 1)
           [EvFopen "flash.bin" true; EvInit "/dev/cu.usbmodem" 9600 STM32_OK]
           (EvGetVersion (Some (1, 9))) [] eq_refl eq_refl).
Defined.

(** ** The plan of a session *)

Lemma steps_snoc (tr : list event) (e : event) :
  steps (tr ++ [e]) = steps tr ++ step_of e.
Proof. unfold steps. rewrite flat_map_app. cbn [flat_map]. rewrite app_nil_r. reflexivity. Qed.

(** The steps of [flash_step], each under the test that leads to it. *)
Lemma flash_step_cases (dev : device) (pp : ProgParam) (major : Z)
    (P P1 P2 Q : world -> Prop) (E : halt -> world -> Prop) :
  (skip_flash pp <> 0 -> forall w, P w -> Q w) ->
  (skip_flash pp = 0 ->
   hoare P (stm32_write_unprotect dev)
     (fun r w => if is_ok r then P1 w else E (Exit 1 UnableToWriteUnprotect) w) E) ->
  (skip_flash pp = 0 -> hoare P1 (erase_step dev major) (fun _ => P2) E) ->
  (skip_flash pp = 0 -> hoare P2 (program_step dev) (fun _ => Q) E) ->
  hoare P (flash_step dev pp major) (fun _ => Q) E.
Proof.
  intros Hskip Hunprotect Herase Hprogram.
  destruct (Z.eq_dec (skip_flash pp) 0) as [Hzero | Hnonzero].
  - apply flash_step_hoare with (P1 := P1) (P2 := P2); auto.
  - unfold flash_step. apply Z.eqb_neq in Hnonzero. rewrite Hnonzero.
    intros w Hw. apply Hskip; [ apply Z.eqb_neq; exact Hnonzero | exact Hw ].
Qed.

Ltac plan_tac :=
  fields; rewrite ?steps_snoc;
  repeat match goal with
         | H : steps (trace _) = _ |- _ => rewrite H; clear H
         end;
  cbn [step_of app]; rewrite <- ?app_assoc; cbn [app].

Ltac plan_done :=
  first [ reflexivity
        | eexists; reflexivity
        | eexists; rewrite app_nil_r; reflexivity
        | eexists; rewrite <- app_assoc; cbn [app]; reflexivity ].

(** The steps of every run are an initial part of the plan, and the
    whole plan when [main] returns. *)
Lemma main_plan (dev : device) (fs : filesystem) (pp : ProgParam) :
  hoare (fun w => steps (trace w) = [])
    (main dev fs pp)
    (fun _ w => steps (trace w) = plan pp (reported_major dev))
    (fun _ w => exists rest, plan pp (reported_major dev) = steps (trace w) ++ rest).
Proof.
  set (opening := if flashing pp then [StOpen] else []).
  set (erasing := if reported_major dev =? 3 then StExtendedErase else StErase).
  set (programming := if flashing pp
                      then [StUnprotect; erasing; StProgram; StClose] else []).
  set (going := if send_go pp =? 1 then [StGo] else []).
  assert (Hplan : plan pp (reported_major dev)
                  = opening ++ [StVersion; StChipId] ++ programming ++ going)
    by reflexivity.
  rewrite Hplan. clear Hplan.
  apply main_hoare with
    (P1 := fun pp' w => steps (trace w) = opening
                        /\ (skip_flash pp' =? 0) = flashing pp
                        /\ send_go pp' = send_go pp)
    (P2 := fun pp' w => steps (trace w) = opening
                        /\ (skip_flash pp' =? 0) = flashing pp
                        /\ send_go pp' = send_go pp)
    (P3 := fun pp' v w => steps (trace w) = opening ++ [StVersion]
                          /\ (skip_flash pp' =? 0) = flashing pp
                          /\ send_go pp' = send_go pp
                          /\ fst v = reported_major dev)
    (P4 := fun pp' v w => steps (trace w) = opening ++ [StVersion; StChipId]
                          /\ (skip_flash pp' =? 0) = flashing pp
                          /\ send_go pp' = send_go pp
                          /\ fst v = reported_major dev)
    (P5 := fun pp' v w => steps (trace w)
                          = opening ++ [StVersion; StChipId] ++ programming
                          /\ send_go pp' = send_go pp).
  - intros w Hw. exec. subst opening programming. unfold flashing.
    destruct (first_char (port pp) =? 0);
      [ rewrite Hw; plan_done | ].
    destruct (skip_flash pp =? 0) eqn:Hskip;
      destruct ((strlen (file pp) =? 1) && (strncmp (file pp) "0" 1 =? 0)) eqn:Hzero;
      cbn [andb negb]; split_cases;
      cbn [skip_flash send_go set_skip_flash];
      plan_tac; try plan_done; auto.
  - intros pp'. eapply hoare_weaken;
      [ apply (connect_loop_inv dev
                 (fun w => steps (trace w) = opening
                           /\ (skip_flash pp' =? 0) = flashing pp
                           /\ send_go pp' = send_go pp));
        try (intros w x H; exact H) | auto .. ].
    + intros w e (Hw & Hf & Hg) He. repeat split; auto. plan_tac.
      destruct e; try discriminate; apply app_nil_r.
    + intros u w [Hw _]. exact Hw.
    + intros h w [(Hw & _) _]. rewrite Hw. plan_done.
  - intros pp' w (Hw & Hf & Hg). exec. unfold reported_major.
    destruct (dev_get_version dev) as [[major minor] |]; cbv beta iota; fields;
      split_cases; plan_tac; try plan_done; auto.
  - intros pp' v w (Hw & Hf & Hg & Hv). exec.
    destruct (dev_get_chip_id dev) as [version |]; cbv beta iota; fields;
      [ rewrite chip_id_check_spec | ];
      split_cases; plan_tac; try plan_done; auto.
  - intros pp' v.
    apply flash_step_cases with
      (P1 := fun w => steps (trace w)
                      = opening ++ [StVersion; StChipId; StUnprotect]
                      /\ send_go pp' = send_go pp /\ flashing pp = true
                      /\ fst v = reported_major dev)
      (P2 := fun w => steps (trace w)
                      = opening ++ [StVersion; StChipId; StUnprotect; erasing]
                      /\ send_go pp' = send_go pp /\ flashing pp = true).
    + intros Hskip w (Hw & Hf & Hg & Hv). apply Z.eqb_neq in Hskip.
      rewrite Hskip in Hf. subst programming. rewrite <- Hf.
      rewrite app_nil_r. auto.
    + intros Hskip w (Hw & Hf & Hg & Hv). rewrite Hskip in Hf. cbn in Hf. exec.
      destruct (dev_write_unprotect dev); cbn [is_ok]; plan_tac; auto.
      subst programming. rewrite <- Hf. plan_done.
    + intros Hskip w (Hw & Hg & Hf & Hv). exec. subst erasing programming.
      rewrite Hv, Hf.
      destruct (reported_major dev =? 3); split_cases; plan_tac; auto; plan_done.
    + intros Hskip. unfold program_step.
      eapply hoare_bind
        with (Q := fun _ w => steps (trace w)
                              = opening ++ [StVersion; StChipId; StUnprotect; erasing]
                              /\ send_go pp' = send_go pp /\ flashing pp = true);
        [ intros w Hw; exact Hw | ].
      intros n.
      eapply hoare_bind
        with (Q := fun _ w => steps (trace w)
                              = opening ++ [StVersion; StChipId; StUnprotect; erasing;
                                            StProgram]
                              /\ send_go pp' = send_go pp /\ flashing pp = true).
      * unfold stm32_write_flash.
        eapply hoare_bind
          with (Q := fun _ w => steps (trace w)
                                = opening ++ [StVersion; StChipId; StUnprotect; erasing;
                                              StProgram]
                                /\ send_go pp' = send_go pp /\ flashing pp = true).
        -- intros w (Hw & Hg & Hf). exec. plan_tac. auto.
        -- intros u. eapply hoare_weaken;
             [ apply (write_loop_inv dev
                        (fun w => steps (trace w)
                                  = opening ++ [StVersion; StChipId; StUnprotect;
                                                erasing; StProgram]
                                  /\ send_go pp' = send_go pp /\ flashing pp = true));
               try (intros w x H; exact H) | auto .. ].
           ++ intros w e (Hw & Hg & Hf) He. repeat split; auto. plan_tac.
              destruct e; try discriminate; rewrite ?app_nil_r; reflexivity.
           ++ intros h w [(Hw & _ & Hf) _]. rewrite Hw. subst programming.
              rewrite Hf. plan_done.
      * intros r w (Hw & Hg & Hf). exec. subst programming. rewrite Hf.
        destruct (is_ok r); cbv beta iota; fields;
          [ destruct (fp w) | ]; plan_tac; auto; plan_done.
  - intros pp' v w (Hw & Hg). exec. subst going. rewrite <- Hg.
    destruct (send_go pp' =? 1); [ destruct (dev_go dev); cbn [is_ok] | ];
      plan_tac; rewrite ?app_nil_r; auto; plan_done.
Qed.

(** X12.  The steps of every run (opening the file, the two queries,
    write-unprotect, erase, programming, closing the file, Go) are an
    initial part of the plan that the arguments and the reported major
    version fix, each step taken at most once and in this order; when
    [main] returns, the whole plan has been carried out. *)
Theorem run_follows_plan (dev : device) (fs : filesystem) (pp : ProgParam) :
  exists rest,
    plan pp (reported_major dev) = steps (trace (snd (run dev fs pp))) ++ rest
    /\ (forall a, fst (run dev fs pp) = Ret a -> rest = []).
Proof.
  pose proof (main_plan dev fs pp initial_world eq_refl) as H. unfold run.
  destruct (main dev fs pp initial_world) as [[a | h] w]; cbn [fst snd].
  - exists []. rewrite app_nil_r. split; [ symmetry; exact H | reflexivity ].
  - destruct H as (rest & Hrest). exists rest. split; [ exact Hrest | discriminate ].
Qed.

(** ** The erase and the Go command in their places *)

Lemma milestones_app (l1 l2 : list event) :
  milestones (l1 ++ l2) = milestones l1 ++ milestones l2.
Proof. apply filter_app. Qed.

(** X13.  An erase command, standard or extended, is issued only after
    the write-unprotect command has returned [STM32_OK]. *)
Theorem erase_after_unprotect (dev : device) (fs : filesystem) (pp : ProgParam)
    (pre : list event) (e : event) (post : list event) :
  trace (snd (run dev fs pp)) = pre ++ e :: post ->
  is_erase_command e = true ->
  In (EvWriteUnprotect STM32_OK) pre.
Proof.
  intros Hsplit Herase.
  pose proof (hoare_final (main dev fs pp) _ _ initial_world
                (main_milestones dev fs pp) eq_refl) as Hshape.
  cbv beta in Hshape. unfold run in Hsplit.
  rewrite Hsplit, milestones_app in Hshape.
  assert (Hkeep : milestones (e :: post) = e :: milestones post).
  { unfold milestones. cbn [filter].
    destruct e; try discriminate; reflexivity. }
  rewrite Hkeep in Hshape.
  assert (Hin : In (EvWriteUnprotect STM32_OK) (milestones pre)).
  { destruct Hshape as [Hs | [(r & Hs) | [(v & Hs) | (v & Hs)]]];
      destruct (milestones pre) as [| a [| b [| c l]]];
      cbn [app] in Hs; inversion Hs; subst; try discriminate;
      try (destruct l; discriminate).
    right. left. reflexivity. }
  unfold milestones in Hin. apply filter_In in Hin. tauto.
Qed.

Lemma erase_after_unprotect_witness :
  In (EvWriteUnprotect STM32_OK)
    [EvFopen "flash.bin" true; EvInit "/dev/cu.usbmodem" 9600 STM32_OK;
     EvGetVersion (Some (3, 0)); EvGetChipId (Some 0x0414);
     EvWriteUnprotect STM32_OK].
Proof.
  apply (erase_after_unprotect (sample_device 0 (Some (3, 0)) (Some 0x0414))
           (sample_fs 0) (sample_param "flash.bin" 0 0)
           [EvFopen "flash.bin" true; EvInit "/dev/cu.usbmodem" 9600 STM32_OK;
            EvGetVersion (Some (3, 0)); EvGetChipId (Some 0x0414);
            EvWriteUnprotect STM32_OK]
           (EvExtendedErase STM32_OK)
           [EvWriteFlash; EvFclose]);
    reflexivity.
Defined.

(** X14.  The Go command is sent only when the go argument is 1, at
    most once, and as the last thing the run does. *)
Theorem go_only_on_request (dev : device) (fs : filesystem) (pp : ProgParam)
    (pre : list event) (e : event) (post : list event) :
  trace (snd (run dev fs pp)) = pre ++ e :: post ->
  is_go_command e = true ->
  send_go pp = 1
  /\ e = EvGo (dev_go dev)
  /\ post = []
  /\ Forall (fun e' => is_go_command e' = false) pre.
Proof.
  intros Hsplit Hgo.
  set (nogo := fun w => Forall (fun e' => is_go_command e' = false) (trace w)).
  set (final := fun w => nogo w
                         \/ (send_go pp = 1
                             /\ exists pre', trace w = pre' ++ [EvGo (dev_go dev)]
                                /\ Forall (fun e' => is_go_command e' = false) pre')).
  assert (Hlog : forall w e', nogo w -> is_go_command e' = false -> nogo (log e' w)).
  { intros w e' Hw He'. subst nogo. fields. apply Forall_snoc; assumption. }
  assert (Hfinal : final (snd (run dev fs pp))).
  { apply (hoare_final (main dev fs pp) nogo final); [ | constructor ].
    apply main_hoare with
      (P1 := fun pp' w => nogo w /\ send_go pp' = send_go pp)
      (P2 := fun pp' w => nogo w /\ send_go pp' = send_go pp)
      (P3 := fun pp' _ w => nogo w /\ send_go pp' = send_go pp)
      (P4 := fun pp' _ w => nogo w /\ send_go pp' = send_go pp)
      (P5 := fun pp' _ w => nogo w /\ send_go pp' = send_go pp).
    - intros w Hw. exec. split_cases; try (left; auto; fail); auto.
      split; auto. exact (Hlog w (EvFopen (file pp) true) Hw eq_refl).
    - intros pp'. eapply hoare_weaken;
        [ apply (connect_loop_inv dev (fun w => nogo w /\ send_go pp' = send_go pp));
          try (intros w x H; exact H) | auto .. ].
      + intros w e' [Hw Hs] He'. split; [ | exact Hs ].
        apply Hlog; [ exact Hw | destruct e'; try discriminate; reflexivity ].
      + intros u w [Hw _]. exact Hw.
      + intros h w [[Hw _] _]. left. exact Hw.
    - intros pp' w [Hw Hs]. exec.
      destruct (dev_get_version dev) as [[major minor] |]; cbv beta iota; fields;
        split_cases; try split; try left; auto; apply (Hlog w); auto.
    - intros pp' v w [Hw Hs]. exec.
      destruct (dev_get_chip_id dev) as [version |]; cbv beta iota; fields;
        [ rewrite chip_id_check_spec | ];
        split_cases; try split; try left; auto; apply (Hlog w); auto.
    - intros pp' v.
      apply flash_step_hoare with
        (P1 := fun w => nogo w /\ send_go pp' = send_go pp)
        (P2 := fun w => nogo w /\ send_go pp' = send_go pp).
      + auto.
      + intros w [Hw Hs]. exec. destruct (dev_write_unprotect dev); cbn [is_ok];
          try split; try left; auto; apply (Hlog w); auto.
      + intros w [Hw Hs]. exec. split_cases;
          try split; try left; auto; apply (Hlog w); auto.
      + eapply hoare_weaken;
          [ apply (program_step_inv dev (fun w => nogo w /\ send_go pp' = send_go pp));
            try (intros w x H; exact H) | auto .. ].
        * intros w e' [Hw Hs] He'. split; [ | exact Hs ].
          apply Hlog; [ exact Hw | destruct e'; try discriminate; reflexivity ].
        * intros w [Hw Hs]. split; [ apply Hlog; auto | exact Hs ].
        * intros w [Hw Hs]. split; [ apply Hlog; auto | exact Hs ].
        * intros h w [[Hw _] _]. left. exact Hw.
    - intros pp' v w [Hw Hs]. exec. rewrite Hs.
      destruct (Z.eqb_spec (send_go pp) 1) as [Hone | Hother]; [ | left; exact Hw ].
      destruct (dev_go dev) eqn:Hanswer; cbn [is_ok]; right;
        (split; [ exact Hone | exists (trace w); split; [ reflexivity | exact Hw ] ]). }
  destruct Hfinal as [Hnone | (Hone & pre' & Htrace & Hpre')].
  - subst nogo. cbv beta in Hnone. rewrite Hsplit in Hnone.
    rewrite Forall_forall in Hnone.
    specialize (Hnone e ltac:(apply in_or_app; right; left; reflexivity)). congruence.
  - rewrite Htrace in Hsplit. symmetry in Hsplit.
    destruct (split_at_last _ _ _ _ _ Hsplit) as [(-> & -> & ->) | Hin].
    + auto.
    + rewrite Forall_forall in Hpre'. specialize (Hpre' e Hin). congruence.
Qed.

Lemma go_only_on_request_witness :
  send_go (sample_param "flash.bin" 1 1) = 1
  /\ EvGo STM32_OK = EvGo (dev_go (sample_device 0 (Some (2, 1)) (Some 0x0410)))
  /\ @nil event = []
  /\ Forall (fun e' => is_go_command e' = false)
       [EvInit "/dev/cu.usbmodem" 9600 STM32_OK; EvGetVersion (Some (2, 1));
        EvGetChipId (Some 0x0410)].
Proof.
  exact (go_only_on_request (sample_device 0 (Some (2, 1)) (Some 0x0410))
           (sample_fs 4) (sample_param "flash.bin" 1 1)
           [EvInit "/dev/cu.usbmodem" 9600 STM32_OK; EvGetVersion (Some (2, 1));
            EvGetChipId (Some 0x0410)]
           (EvGo STM32_OK) [] eq_refl eq_refl).
Defined.

(** ** The parameter checks *)

Lemma char_code_inj (c d : ascii) : char_code c = char_code d -> c = d.
Proof.
  unfold char_code. intros H. apply Nat2Z.inj in H.
  rewrite <- (ascii_nat_embedding c), <- (ascii_nat_embedding d), H. reflexivity.
Qed.

(** The test of line 109 holds of the string "0" and of no other. *)
Lemma file_name_test (f : string) :
  (strlen f =? 1) && (strncmp f "0" 1 =? 0) = true <-> f = "0"%string.
Proof.
  split.
  - intros Htest. apply andb_true_iff in Htest. destruct Htest as [Hlen Hcmp].
    apply Z.eqb_eq in Hlen. apply Z.eqb_eq in Hcmp. unfold strlen in Hlen.
    destruct f as [| c [| d rest]]; cbn [String.length] in Hlen; try lia.
    cbn [strncmp] in Hcmp.
    destruct (Z.eqb_spec (char_code c) (char_code "0")) as [Heq | Hne]; [ | lia ].
    apply char_code_inj in Heq. subst c. reflexivity.
  - intros ->. reflexivity.
Qed.

(** X15.  With a port given and the skip flag clear, the parameter check
    turns the skip flag on, without touching any file, for the file
    argument "0" and for no other: a name such as "00", "0.bin" or the
    empty string is taken for a file to open, and the one event of the
    check is the attempt to open it. *)
Theorem check_parameters_skips_iff_zero (fs : filesystem) (pp : ProgParam)
    (w : world) :
  first_char (port pp) <> 0 ->
  skip_flash pp = 0 ->
  (check_parameters fs pp w = (Ret (set_skip_flash 1 pp), w)
   <-> file pp = "0"%string) /\
  (file pp <> "0"%string ->
   trace (snd (check_parameters fs pp w)) =
     trace w ++ [EvFopen (file pp)
                  match fs (file pp) with Some _ => true | None => false end]).
Proof.
  intros Hport Hskip. rewrite <- file_name_test.
  exec. apply Z.eqb_neq in Hport. rewrite Hport, Hskip. cbn [Z.eqb].
  destruct ((strlen (file pp) =? 1) && (strncmp (file pp) "0" 1 =? 0)).
  - split; [ split; reflexivity | ]. intros Hname. exfalso. apply Hname. reflexivity.
  - split.
    + split; [ | discriminate ].
      destruct (fs (file pp)); intros H; inversion H as [[Hpp Hw]].
      apply (f_equal skip_flash) in Hpp. cbn in Hpp. lia.
    + intros _. destruct (fs (file pp)); reflexivity.
Qed.

Lemma check_parameters_skips_iff_zero_witness :
  (check_parameters (sample_fs 4) (sample_param "0" 0 1) initial_world
     = (Ret (set_skip_flash 1 (sample_param "0" 0 1)), initial_world)
   <-> file (sample_param "0" 0 1) = "0"%string) /\
  (file (sample_param "0" 0 1) <> "0"%string ->
   trace (snd (check_parameters (sample_fs 4) (sample_param "0" 0 1) initial_world)) =
     trace initial_world ++
     [EvFopen (file (sample_param "0" 0 1))
        match sample_fs 4 (file (sample_param "0" 0 1)) with
        | Some _ => true
        | None => false
        end]).
Proof.
  apply (check_parameters_skips_iff_zero (sample_fs 4) (sample_param "0" 0 1)
           initial_world).
  - cbn. discriminate.
  - reflexivity.
Defined.

(** X16.  For a file to program that exists, the parameter check opens
    it, stores its size modulo 2^32 in [fpsize] and leaves the stream at
    its beginning with the end-of-file indicator clear: measuring the file
    consumes nothing of it. *)
Theorem check_parameters_measures (fs : filesystem) (pp : ProgParam) (w : world)
    (data : list byte) :
  first_char (port pp) <> 0 ->
  skip_flash pp = 0 ->
  file pp <> "0"%string ->
  fs (file pp) = Some data ->
  check_parameters fs pp w =
    (Ret pp,
     {| fp := Some {| f_data := data; f_pos := 0; f_eof := false |};
        fpsize := Z.of_nat (List.length data) mod 2 ^ 32;
        expected_next := expected_next w;
        timeout := timeout w;
        init_calls := init_calls w;
        write_calls := write_calls w;
        trace := trace w ++ [EvFopen (file pp) true] |}).
Proof.
  intros Hport Hskip Hname Hfile.
  exec. apply Z.eqb_neq in Hport. rewrite Hport, Hskip. cbn [Z.eqb].
  destruct ((strlen (file pp) =? 1) && (strncmp (file pp) "0" 1 =? 0)) eqn:Htest.
  - apply file_name_test in Htest. contradiction.
  - rewrite Hfile. cbv beta iota. fields. reflexivity.
Qed.

Lemma check_parameters_measures_witness :
  check_parameters (sample_fs 4) (sample_param "flash.bin" 0 1) initial_world =
    (Ret (sample_param "flash.bin" 0 1),
     {| fp := Some {| f_data := repeat Byte.x00 4; f_pos := 0; f_eof := false |};
        fpsize := 4;
        expected_next := 10;
        timeout := 0;
        init_calls := 0;
        write_calls := 0;
        trace := [EvFopen "flash.bin" true] |}).
Proof.
  apply (check_parameters_measures (sample_fs 4) (sample_param "flash.bin" 0 1)
           initial_world (repeat Byte.x00 4)).
  - cbn. discriminate.
  - reflexivity.
  - discriminate.
  - reflexivity.
Defined.
